(** * joi-temporal: the extension synthesizer, embedded and verified

    The TypeScript module builds, from one declarative descriptor per
    date/time kind, a schema extension: a coerce step, a defensive validate
    step, and a table of comparison rules.  This development embeds that
    module (its factory [makeExtension], the tie-break table [CHECKS] and the
    eight descriptors) and proves the properties its specification states.

    JavaScript functions may read the ambient clock and may throw; both
    effects are explicit here: a computation is a function of the clock that
    returns either a value or the thrown exception. *)

From Stdlib Require Import ZArith String Ascii List Bool Lia DecimalString.
From stdpp Require Import base option strings gmap fin_maps.

Import ListNotations.
Local Open Scope string_scope.
Local Open Scope Z_scope.

(** ** Exceptions *)

Inductive JsError :=
| RangeError
| TypeError
| Error (message : string).

Inductive Exc (A : Type) :=
| Ok (a : A)
| Throw (e : JsError).
Arguments Ok {A} a.
Arguments Throw {A} e.

Definition andThen {A B} (x : Exc A) (k : A -> Exc B) : Exc B :=
  match x with
  | Ok a => k a
  | Throw e => Throw e
  end.

(** ** The date/time value library: data and comparison primitives

    The value library is an external collaborator of the module: its eight
    value kinds and their comparison primitives are described here as far as
    the module uses them.  Only the ISO 8601 calendar is modelled.  A value
    of the library is a record of integers, as in the internal slots of the
    corresponding objects. *)

Module Temporal.

Record ISODate := mkISODate { year : Z; month : Z; day : Z }.

Record TimeRecord := mkTime {
  hour : Z; minute : Z; second : Z;
  millisecond : Z; microsecond : Z; nanosecond : Z }.

(** A zoned date-time: an exact instant and a zone identifier; the offset
    is the one the zone database gives for that instant in that zone. *)
Record ZonedRecord := mkZoned {
  epochNanoseconds : Z;
  timeZoneId : string;
  offsetNanoseconds : Z }.

Record DurationRecord := mkDuration {
  years : Z; months : Z; weeks : Z; days : Z;
  hours : Z; minutes : Z; seconds : Z;
  milliseconds : Z; microseconds : Z; nanoseconds : Z }.

(** Three-way comparison of integers, with the library's -1 / 0 / 1. *)
Definition cmpZ (a b : Z) : Z :=
  if a <? b then -1 else if b <? a then 1 else 0.

(** Lexicographic combination: the first non-zero result decides. *)
Definition lexZ (c rest : Z) : Z := if c =? 0 then rest else c.

(** Modelled from the spec: the library's total order on calendar dates
    (the library is not part of the repository): by year, then month, then
    day. *)
Definition CompareISODate (a b : ISODate) : Z :=
  lexZ (cmpZ (year a) (year b))
    (lexZ (cmpZ (month a) (month b)) (cmpZ (day a) (day b))).

(** Modelled from the spec: the library's total order on times of day, by
    hour, minute, second and the sub-second fields in turn. *)
Definition CompareTimeRecord (a b : TimeRecord) : Z :=
  lexZ (cmpZ (hour a) (hour b))
    (lexZ (cmpZ (minute a) (minute b))
      (lexZ (cmpZ (second a) (second b))
        (lexZ (cmpZ (millisecond a) (millisecond b))
          (lexZ (cmpZ (microsecond a) (microsecond b))
                (cmpZ (nanosecond a) (nanosecond b)))))).

(** Modelled from the spec: the library's total order on date-times, by
    date and then by time. *)
Definition CompareISODateTime (d1 : ISODate) (t1 : TimeRecord)
                              (d2 : ISODate) (t2 : TimeRecord) : Z :=
  lexZ (CompareISODate d1 d2) (CompareTimeRecord t1 t2).

(** *** Calendar arithmetic used by the duration comparison *)

Definition IsLeapYear (y : Z) : bool :=
  (y mod 4 =? 0) && (negb (y mod 100 =? 0) || (y mod 400 =? 0)).

Definition ISODaysInMonth (y m : Z) : Z :=
  if m =? 2 then (if IsLeapYear y then 29 else 28)
  else if (m =? 4) || (m =? 6) || (m =? 9) || (m =? 11) then 30
  else 31.

(** A date of the calendar: a month from 1 to 12 and a day of that month. *)
Definition IsValidISODate (d : ISODate) : bool :=
  (1 <=? month d) && (month d <=? 12) && (1 <=? day d)
  && (day d <=? ISODaysInMonth (year d) (month d)).

(** Days between 1970-01-01 and the given proleptic Gregorian date; linear
    in the day number, so a day past the end of the month counts on. *)
Definition ISODateToEpochDays (y m d : Z) : Z :=
  let y' := if m <=? 2 then y - 1 else y in
  let era := y' / 400 in
  let yoe := y' - era * 400 in
  let mp := if m <=? 2 then m + 9 else m - 3 in
  let doy := (153 * mp + 2) / 5 + d - 1 in
  let doe := yoe * 365 + yoe / 4 - yoe / 100 + doy in
  era * 146097 + doe - 719468.

Definition BalanceISOYearMonth (y m : Z) : Z * Z :=
  (y + (m - 1) / 12, (m - 1) mod 12 + 1).

(** RegulateISODate with overflow "constrain", for a balanced month. *)
Definition ConstrainDay (y m d : Z) : Z :=
  Z.max 1 (Z.min d (ISODaysInMonth y m)).

Definition EpochDaysWithinLimits (e : Z) : bool :=
  (-100000001 <=? e) && (e <=? 100000000).

Definition durationFields (d : DurationRecord) : list Z :=
  [years d; months d; weeks d; days d; hours d; minutes d; seconds d;
   milliseconds d; microseconds d; nanoseconds d].

Definition sameFields (a b : DurationRecord) : bool :=
  forallb (fun p => fst p =? snd p)
          (combine (durationFields a) (durationFields b)).

(** Sign of the first non-zero field: -1, 0 or 1. *)
Fixpoint firstSign (l : list Z) : Z :=
  match l with
  | [] => 0
  | x :: rest => if x =? 0 then firstSign rest else Z.sgn x
  end.

(** Modelled from the spec: the signed magnitude [sign] that a duration of
    the library carries. *)
Definition DurationSign (d : DurationRecord) : Z :=
  firstSign (durationFields d).

(** IsCalendarUnit (DefaultTemporalLargestUnit d): the largest non-zero unit
    is a year, a month or a week. *)
Definition hasCalendarUnits (d : DurationRecord) : bool :=
  negb (years d =? 0) || negb (months d =? 0) || negb (weeks d =? 0).

Definition TimeDurationFromComponents (d : DurationRecord) : Z :=
  nanoseconds d + 1000 * microseconds d + 1000000 * milliseconds d
  + 1000000000 * seconds d + 60000000000 * minutes d
  + 3600000000000 * hours d.

Definition nsPerDay : Z := 86400000000000.
Definition maxTimeDuration : Z := 2 ^ 53 * 1000000000 - 1.

(** The date part of a duration as a number of days, from a reference
    date: years, months and weeks are added to the reference date (the day
    clamped to the target month) and the distance is counted.  Throws when
    the target date leaves the representable range. *)
Definition DateDurationDays (d : DurationRecord) (relativeTo : ISODate)
  : Exc Z :=
  if (years d =? 0) && (months d =? 0) && (weeks d =? 0) then Ok (days d)
  else
    let ym := BalanceISOYearMonth (year relativeTo + years d)
                                  (month relativeTo + months d) in
    let dd := ConstrainDay (fst ym) (snd ym) (day relativeTo) in
    let later := ISODateToEpochDays (fst ym) (snd ym) (dd + 7 * weeks d) in
    let start := ISODateToEpochDays (year relativeTo) (month relativeTo)
                                    (day relativeTo) in
    if EpochDaysWithinLimits later then Ok (days d + (later - start))
    else Throw RangeError.

Definition Add24HourDaysToTimeDuration (t n : Z) : Exc Z :=
  let r := t + n * nsPerDay in
  if Z.abs r >? maxTimeDuration then Throw RangeError else Ok r.

(** Modelled from the spec: the comparison of two durations of the
    date/time library, which is not part of the repository.  Durations in
    fixed units only (days and smaller) are compared exactly, as total
    nanoseconds with 24-hour days, and the reference date is not consulted;
    when either carries years, months or weeks both are first anchored to
    the reference date.  Equal field-by-field durations compare as 0. *)
Definition CompareDurations (one two : DurationRecord)
                            (plainRelativeTo : ISODate) : Exc Z :=
  if sameFields one two then Ok 0
  else
    let calendar := hasCalendarUnits one || hasCalendarUnits two in
    andThen (if calendar then DateDurationDays one plainRelativeTo
             else Ok (days one)) (fun days1 =>
    andThen (if calendar then DateDurationDays two plainRelativeTo
             else Ok (days two)) (fun days2 =>
    andThen (Add24HourDaysToTimeDuration
               (TimeDurationFromComponents one) days1) (fun t1 =>
    andThen (Add24HourDaysToTimeDuration
               (TimeDurationFromComponents two) days2) (fun t2 =>
    Ok (cmpZ t1 t2))))).

End Temporal.

(** ** The clock *)

(** The ambient state read by [Temporal.Now]: the current local date and
    wall-clock time. *)
Record Clock := mkClock {
  clk_date : Temporal.ISODate;
  clk_time : Temporal.TimeRecord }.

(** A JavaScript computation: it may read the clock and may throw. *)
Definition M (A : Type) : Type := Clock -> Exc A.

Definition ret {A} (a : A) : M A := fun _ => Ok a.
Definition throw {A} (e : JsError) : M A := fun _ => Throw e.
Definition bind {A B} (c : M A) (k : A -> M B) : M B :=
  fun clk => match c clk with
             | Ok a => k a clk
             | Throw e => Throw e
             end.
(** [try { body } catch { handler }]. *)
Definition try_catch {A} (body : M A) (handler : M A) : M A :=
  fun clk => match body clk with
             | Ok a => Ok a
             | Throw _ => handler clk
             end.
(** Lifting of a clock-free computation. *)
Definition liftExc {A} (x : Exc A) : M A := fun _ => x.

Notation "'let*' x ':=' c 'in' k" := (bind c (fun x => k))
  (at level 10, x name, c at level 100, k at level 200).

(** ** JavaScript values *)

Inductive Kind :=
| KPlainDate | KPlainTime | KPlainDateTime | KZonedDateTime
| KInstant | KDuration | KPlainYearMonth | KPlainMonthDay.

Inductive TemporalObj :=
| PlainDate (d : Temporal.ISODate)
| PlainTime (t : Temporal.TimeRecord)
| PlainDateTime (d : Temporal.ISODate) (t : Temporal.TimeRecord)
| ZonedDateTime (z : Temporal.ZonedRecord)
| Instant (epochNs : Z)
| Duration (d : Temporal.DurationRecord)
| PlainYearMonth (d : Temporal.ISODate)
| PlainMonthDay (d : Temporal.ISODate).

(** The values an input or a rule argument can be.  Numbers are the
    integral ones; [VPlainObject] is an object literal with no properties.
    Values are compared structurally: "the same object" is "the same term". *)
Inductive Val :=
| VUndefined
| VNull
| VBool (b : bool)
| VNumber (n : Z)
| VString (s : string)
| VTemporal (o : TemporalObj)
| VPlainObject.

Definition kindOf (o : TemporalObj) : Kind :=
  match o with
  | PlainDate _ => KPlainDate
  | PlainTime _ => KPlainTime
  | PlainDateTime _ _ => KPlainDateTime
  | ZonedDateTime _ => KZonedDateTime
  | Instant _ => KInstant
  | Duration _ => KDuration
  | PlainYearMonth _ => KPlainYearMonth
  | PlainMonthDay _ => KPlainMonthDay
  end.

Definition Kind_eqb (a b : Kind) : bool :=
  match a, b with
  | KPlainDate, KPlainDate | KPlainTime, KPlainTime
  | KPlainDateTime, KPlainDateTime | KZonedDateTime, KZonedDateTime
  | KInstant, KInstant | KDuration, KDuration
  | KPlainYearMonth, KPlainYearMonth | KPlainMonthDay, KPlainMonthDay => true
  | _, _ => false
  end.

(** [v instanceof Temporal.<K>]. *)
Definition instanceOf (k : Kind) (v : Val) : bool :=
  match v with
  | VTemporal o => Kind_eqb (kindOf o) k
  | _ => false
  end.

(** [v == null]: true of [null] and [undefined] only. *)
Definition isNullish (v : Val) : bool :=
  match v with
  | VUndefined | VNull => true
  | _ => false
  end.

(** [typeof v === "string"]. *)
Definition isString (v : Val) : bool :=
  match v with
  | VString _ => true
  | _ => false
  end.

(** The type-level payload of each kind. *)
Definition payload (k : Kind) : Type :=
  match k with
  | KPlainDate => Temporal.ISODate
  | KPlainTime => Temporal.TimeRecord
  | KPlainDateTime => (Temporal.ISODate * Temporal.TimeRecord)%type
  | KZonedDateTime => Temporal.ZonedRecord
  | KInstant => Z
  | KDuration => Temporal.DurationRecord
  | KPlainYearMonth => Temporal.ISODate
  | KPlainMonthDay => Temporal.ISODate
  end.

Definition wrap (k : Kind) : payload k -> TemporalObj :=
  match k return payload k -> TemporalObj with
  | KPlainDate => PlainDate
  | KPlainTime => PlainTime
  | KPlainDateTime => fun p => PlainDateTime (fst p) (snd p)
  | KZonedDateTime => ZonedDateTime
  | KInstant => Instant
  | KDuration => Duration
  | KPlainYearMonth => PlainYearMonth
  | KPlainMonthDay => PlainMonthDay
  end.

Definition unwrap (k : Kind) (o : TemporalObj) : option (payload k) :=
  match k return option (payload k) with
  | KPlainDate => match o with PlainDate d => Some d | _ => None end
  | KPlainTime => match o with PlainTime t => Some t | _ => None end
  | KPlainDateTime =>
      match o with PlainDateTime d t => Some (d, t) | _ => None end
  | KZonedDateTime => match o with ZonedDateTime z => Some z | _ => None end
  | KInstant => match o with Instant n => Some n | _ => None end
  | KDuration => match o with Duration d => Some d | _ => None end
  | KPlainYearMonth => match o with PlainYearMonth d => Some d | _ => None end
  | KPlainMonthDay => match o with PlainMonthDay d => Some d | _ => None end
  end.

(** ** What is taken as given

    The text layer of the date/time library (its ISO 8601 parsers and
    printers), its conversion of arguments that are neither a string nor an
    instance, and the language's printing of numbers are not part of the
    module under study: they are parameters of the development. *)
Record Platform := mkPlatform {
  (** [Temporal.<K>.from(text)]: the parsed value, or the exception thrown. *)
  fromText : forall k : Kind, string -> Exc (payload k);
  (** [Temporal.<K>.from(v)] for [v] neither a string nor an instance of K. *)
  fromOther : forall k : Kind, Val -> Exc (payload k);
  (** [o.toString()]: the canonical ISO 8601 text of a library value. *)
  toString : TemporalObj -> string;
  (** [String(n)] for a number. *)
  numberToString : Z -> string }.

(** ** Host-engine data: error reports, results, schemas, rules *)

(** What [helpers.error(code, local)] builds. *)
Record ErrorReport := mkReport { code : string; local : gmap string Val }.

Definition helpers_error (c : string) (ctx : gmap string Val) : ErrorReport :=
  mkReport c ctx.

(** The object returned by a coerce or validate step: each of the two
    properties [value] and [errors] is present or not. *)
Record Result := mkResult {
  res_value : option Val;
  res_errors : option ErrorReport }.

(** What a rule's validate returns: the value, or an error report. *)
Inductive RuleReturn :=
| RetValue (v : Val)
| RetError (e : ErrorReport).

(** The argument of [$_addRule]; a compiled schema keeps these, in order. *)
Record RuleOptions := mkRuleOptions {
  ro_name : string;
  ro_args : gmap string Val }.

Record Schema := mkSchema {
  sch_type : string;
  sch_rules : list RuleOptions }.

(** The declaration of one rule argument.  [arg_ref] lets the host accept a
    reference to another field in place of the value; the values modelled
    here are never references. *)
Record ArgSpec := mkArgSpec {
  arg_name : string;
  arg_ref : bool;
  arg_assert : Val -> bool;
  arg_message : string }.

(** The receiver of a rule method: the schema being extended, the host's
    [$_addRule], and the schema's other methods by name. *)
Record This := mkThis {
  this_schema : Schema;
  addRule : RuleOptions -> M Schema;
  callMethod : string -> list Val -> M Schema }.

Record Rule := mkRule {
  rule_method : This -> list Val -> M Schema;
  rule_args : list ArgSpec;
  rule_validate : option (Val -> gmap string Val -> M RuleReturn) }.

(** The n-th actual parameter of a call; a missing one is [undefined]. *)
Definition argument (n : nat) (actuals : list Val) : Val :=
  nth n actuals VUndefined.

(** Destructuring [{ key }] of an arguments object. *)
Definition property (key : string) (o : gmap string Val) : Val :=
  default VUndefined (o !! key).

Record JoiRoot := mkJoi { any : Schema }.

(** ** Config *)

Record TypeConfig := mkTypeConfig {
  name : string;
  check : Val -> bool;
  parse : string -> M Val;
  baseMessage : string;
  compare : option (Val -> Val -> M Z);
  compareMessages : option (gmap string string);
  now : option (M Val);
  extraMessages : option (gmap string string);
  extraRules : option (gmap string Rule) }.

Definition DEFAULT_COMPARE : gmap string string :=
  <["min" := "{{#label}} must be on or after {#limit}"]>
  (<["max" := "{{#label}} must be on or before {#limit}"]>
  (<["gt" := "{{#label}} must be after {#limit}"]>
  (<["lt" := "{{#label}} must be before {#limit}"]> ∅))).

Definition CHECKS : list (string * (Z -> bool)) :=
  [ ("min", fun c => c >=? 0);
    ("max", fun c => c <=? 0);
    ("gt", fun c => c >? 0);
    ("lt", fun c => c <? 0) ].

(** The extension definition handed to the host engine. *)
Record Extension := mkExtension {
  type : string;
  base : Schema;
  messages : gmap string string;
  coerce : Val -> M Result;
  validate : Val -> M Result;
  rules : gmap string Rule }.

(** [Object.assign(target, source)] and the spread [{...target, ...source}]:
    the entries of [source], when it is present, override those of
    [target]. *)
Definition assign {A} (target : gmap string A)
                      (source : option (gmap string A)) : gmap string A :=
  match source with
  | Some src => src ∪ target
  | None => target
  end.

(** [limit === "now"]. *)
Definition isNowToken (limit : Val) : bool :=
  match limit with
  | VString s => String.eqb s "now"
  | _ => false
  end.

(** ** The host engine, as far as the module relies on it *)

Section Host.

(** The rule table of the extension the schema was created from. *)
Variable table : gmap string Rule.

(** Modelled from the spec: the host's [$_addRule], which is not part of
    the repository.  The rule must exist; each declared argument is
    checked by its assertion when the rule is attached (a failure is a
    configuration error, thrown); the rule is appended, so that rules stay
    in attachment order, neither reordered nor deduplicated. *)
Definition host_addRule (s : Schema) (opts : RuleOptions) : M Schema :=
  match table !! ro_name opts with
  | None => throw (Error "Unknown rule")
  | Some def =>
      match find (fun spec =>
                    negb (arg_assert spec
                            (property (arg_name spec) (ro_args opts))))
                 (rule_args def) with
      | Some bad => throw (Error (arg_name bad +:+ " " +:+ arg_message bad))
      | None => ret {| sch_type := sch_type s;
                       sch_rules := (sch_rules s ++ [opts])%list |}
      end
  end.

(** Modelled from the spec: calling the schema method named [nm].  The
    method of the rule runs with the schema as receiver; [depth] bounds
    the nesting of method calls (the call stack).  Only the methods that
    the extension's own rules define are modelled: the methods the host's
    base type supplies (required, optional, allow and the like) are outside
    this model, which treats every name outside the rule table as a missing
    method. *)
Fixpoint invoke (depth : nat) (nm : string) (s : Schema)
                (actuals : list Val) : M Schema :=
  match depth with
  | O => throw RangeError
  | S d =>
      match table !! nm with
      | None => throw TypeError
      | Some def =>
          rule_method def
            {| this_schema := s;
               addRule := host_addRule s;
               callMethod := fun n a => invoke d n s a |}
            actuals
      end
  end.

(** Modelled from the spec: the attached rules run in attachment order on
    the current value; the first error report ends the run. *)
Fixpoint runRules (value : Val) (attached : list RuleOptions) : M Result :=
  match attached with
  | [] => ret (mkResult (Some value) None)
  | r :: rest =>
      match table !! ro_name r ≫= rule_validate with
      | None => runRules value rest
      | Some f =>
          let* out := f value (ro_args r) in
          match out with
          | RetError e => ret (mkResult (Some value) (Some e))
          | RetValue v => runRules v rest
          end
      end
  end.

End Host.

(** The stack depth the schema methods are called with. *)
Definition callDepth : nat := 8.

(** [custom.<type>()]: a fresh schema of the extension's type. *)
Definition newSchema (ext : Extension) : Schema :=
  {| sch_type := type ext; sch_rules := [] |}.

(** [schema.<nm>(...actuals)]. *)
Definition attach (ext : Extension) (nm : string) (actuals : list Val)
                  (s : Schema) : M Schema :=
  invoke (rules ext) callDepth nm s actuals.

(** Modelled from the spec: the host's [validate()] of a present input under
    the default preferences: an absent input is left to the host's own
    optional/required handling; otherwise the coerce step runs, then the
    validate step, then the attached rules; an error ends the call. *)
Definition schemaValidate (ext : Extension) (s : Schema) (input : Val)
  : M Result :=
  match input with
  | VUndefined => ret (mkResult (Some VUndefined) None)
  | _ =>
      let* coerced := coerce ext input in
      match res_errors coerced with
      | Some e => ret (mkResult (res_value coerced) (Some e))
      | None =>
          let value := default VUndefined (res_value coerced) in
          let* based := validate ext value in
          match res_errors based with
          | Some e => ret (mkResult (res_value based) (Some e))
          | None =>
              runRules (rules ext) (default VUndefined (res_value based))
                       (sch_rules s)
          end
      end
  end.

(** ** The module under study *)

Section Engine.

Variable P : Platform.

(** [String(v)]. *)
Definition js_String (v : Val) : string :=
  match v with
  | VUndefined => "undefined"
  | VNull => "null"
  | VBool true => "true"
  | VBool false => "false"
  | VNumber n => numberToString P n
  | VString s => s
  | VTemporal o => toString P o
  | VPlainObject => "[object Object]"
  end.

(** [Temporal.<K>.from(text)]. *)
Definition from (k : Kind) (text : string) : M Val :=
  liftExc (andThen (fromText P k text) (fun p => Ok (VTemporal (wrap k p)))).

(** The conversion every static [compare] applies to its operands: an
    instance is taken as it is, a string is parsed. *)
Definition ToTemporal (k : Kind) (v : Val) : M (payload k) :=
  liftExc
    match v with
    | VString text => fromText P k text
    | VTemporal o =>
        match unwrap k o with
        | Some p => Ok p
        | None => fromOther P k v
        end
    | _ => fromOther P k v
    end.

(** The static [compare] of each kind with a comparator; zoned date-times
    and instants are compared as exact instants. *)
Definition PlainDate_compare (a b : Val) : M Z :=
  let* one := ToTemporal KPlainDate a in
  let* two := ToTemporal KPlainDate b in
  ret (Temporal.CompareISODate one two).

Definition PlainTime_compare (a b : Val) : M Z :=
  let* one := ToTemporal KPlainTime a in
  let* two := ToTemporal KPlainTime b in
  ret (Temporal.CompareTimeRecord one two).

Definition PlainDateTime_compare (a b : Val) : M Z :=
  let* one := ToTemporal KPlainDateTime a in
  let* two := ToTemporal KPlainDateTime b in
  ret (Temporal.CompareISODateTime (fst one) (snd one) (fst two) (snd two)).

Definition ZonedDateTime_compare (a b : Val) : M Z :=
  let* one := ToTemporal KZonedDateTime a in
  let* two := ToTemporal KZonedDateTime b in
  ret (Temporal.cmpZ (Temporal.epochNanoseconds one)
                     (Temporal.epochNanoseconds two)).

Definition Instant_compare (a b : Val) : M Z :=
  let* one := ToTemporal KInstant a in
  let* two := ToTemporal KInstant b in
  ret (Temporal.cmpZ one two).

Definition PlainYearMonth_compare (a b : Val) : M Z :=
  let* one := ToTemporal KPlainYearMonth a in
  let* two := ToTemporal KPlainYearMonth b in
  ret (Temporal.CompareISODate one two).

(** [Temporal.Duration.compare(a, b, { relativeTo })] with a plain date as
    the reference. *)
Definition Duration_compare (a b : Val) (relativeTo : Temporal.ISODate)
  : M Z :=
  let* one := ToTemporal KDuration a in
  let* two := ToTemporal KDuration b in
  liftExc (Temporal.CompareDurations one two relativeTo).

(** [Temporal.Now]: each call reads the clock of the moment of the call. *)
Definition Now_plainDateISO : M Temporal.ISODate :=
  fun clk => Ok (clk_date clk).
Definition Now_plainTimeISO : M Temporal.TimeRecord :=
  fun clk => Ok (clk_time clk).
Definition Now_plainDateTimeISO : M (Temporal.ISODate * Temporal.TimeRecord) :=
  fun clk => Ok (clk_date clk, clk_time clk).

(** *** Factory *)

(** The expression bound to [resolved] in a comparison rule's validate:
    the token "now" on a kind with a current-value resolver calls the
    resolver; any other string is parsed; anything else is taken as it is. *)
Definition resolveLimit (config : TypeConfig) (limit : Val) : M Val :=
  match (if isNowToken limit then now config else None) with
  | Some current => current
  | None =>
      match limit with
      | VString text => parse config text
      | _ => ret limit
      end
  end.

(** The rule object built by one turn of the loop over [CHECKS]. *)
Definition comparisonRule (config : TypeConfig) (p : string)
    (cmp : Val -> Val -> M Z) (rule : string) (chk : Z -> bool) : Rule :=
  {| rule_method := fun this actuals =>
       let limit := argument 0 actuals in
       addRule this {| ro_name := rule; ro_args := {[ "limit" := limit ]} |};
     rule_args :=
       [ {| arg_name := "limit"; arg_ref := true;
            arg_assert := fun v => isString v || check config v;
            arg_message := "must be a string or Temporal instance" |} ];
     rule_validate := Some (fun value args =>
       let limit := property "limit" args in
       let* resolved := resolveLimit config limit in
       let* c := cmp value resolved in
       if negb (chk c)
       then ret (RetError (helpers_error (p +:+ "." +:+ rule)
                   {[ "limit" := VString (js_String resolved) ]}))
       else ret (RetValue value)) |}.

(** [gte] and [lte]: a method only, which calls the method of another
    rule on the same receiver. *)
Definition aliasRule (target : string) : Rule :=
  {| rule_method := fun this actuals =>
       let limit := argument 0 actuals in
       callMethod this target [limit];
     rule_args := [];
     rule_validate := None |}.

(** The factory: from one descriptor, the function the host calls with its
    root object to obtain the extension definition.  The message table
    starts with the base message; when the descriptor has a comparator the
    loop over [CHECKS] adds one message and one rule per entry, then the two
    aliases; extra messages and extra rules are merged last. *)
Definition makeExtension (config : TypeConfig) : JoiRoot -> Extension :=
  let p := "temporal." +:+ name config in
  fun joi =>
    let messages0 : gmap string string :=
      {[ p +:+ ".base" := baseMessage config ]} in
    let rules0 : gmap string Rule := ∅ in
    let built :=
      match compare config with
      | Some cmp =>
          let msgs := assign DEFAULT_COMPARE (compareMessages config) in
          let looped :=
            foldl (fun acc entry =>
                     let rule := fst entry in
                     let chk := snd entry in
                     (match msgs !! rule with
                      | Some m => <[p +:+ "." +:+ rule := m]> (fst acc)
                      | None => fst acc
                      end,
                      <[rule := comparisonRule config p cmp rule chk]>
                        (snd acc)))
                  (messages0, rules0) CHECKS in
          (fst looped,
           <["lte" := aliasRule "max"]>
             (<["gte" := aliasRule "min"]> (snd looped)))
      | None => (messages0, rules0)
      end in
    {| type := name config;
       base := any joi;
       messages := assign (fst built) (extraMessages config);
       coerce := fun value =>
         if isNullish value || check config value
         then ret (mkResult (Some value) None)
         else
           match value with
           | VString text =>
               try_catch
                 (let* parsed := parse config text in
                  ret (mkResult (Some parsed) None))
                 (ret (mkResult None
                         (Some (helpers_error (p +:+ ".base") ∅))))
           | _ =>
               ret (mkResult None (Some (helpers_error (p +:+ ".base") ∅)))
           end;
       validate := fun value =>
         if negb (check config value)
         then ret (mkResult (Some value)
                     (Some (helpers_error (p +:+ ".base") ∅)))
         else ret (mkResult (Some value) None);
       rules := assign (snd built) (extraRules config) |}.

(** *** Types *)

(** [value.timeZoneId]: the zone identifier of a zoned date-time;
    [None] is [undefined] (no such property); reading a property of
    [null] or [undefined] throws. *)
Definition get_timeZoneId (value : Val) : M (option string) :=
  match value with
  | VUndefined | VNull => throw TypeError
  | VTemporal (ZonedDateTime z) => ret (Some (Temporal.timeZoneId z))
  | _ => ret None
  end.

(** [value.sign]: the sign of a duration. *)
Definition get_sign (value : Val) : M (option Z) :=
  match value with
  | VUndefined | VNull => throw TypeError
  | VTemporal (Duration d) => ret (Some (Temporal.DurationSign d))
  | _ => ret None
  end.

(** [id !== tz] for [id] a string or [undefined]. *)
Definition notStrictEqual (id : option string) (tz : Val) : bool :=
  match id, tz with
  | Some a, VString b => negb (String.eqb a b)
  | None, VUndefined => false
  | _, _ => true
  end.

(** [s <= n], [s >= n], [s === n] for [s] a number or [undefined]. *)
Definition lessOrEqual (s : option Z) (n : Z) : bool :=
  match s with Some x => x <=? n | None => false end.
Definition greaterOrEqual (s : option Z) (n : Z) : bool :=
  match s with Some x => x >=? n | None => false end.
Definition strictEqualNumber (s : option Z) (n : Z) : bool :=
  match s with Some x => x =? n | None => false end.

Definition plainDateConfig : TypeConfig :=
  {| name := "plainDate";
     check := fun v => instanceOf KPlainDate v;
     parse := fun v => from KPlainDate v;
     compare := Some (fun a b => PlainDate_compare a b);
     now := Some (let* d := Now_plainDateISO in ret (VTemporal (PlainDate d)));
     baseMessage :=
       "{{#label}} must be a valid ISO 8601 date string or Temporal.PlainDate";
     compareMessages := None;
     extraMessages := None;
     extraRules := None |}.

Definition plainTimeConfig : TypeConfig :=
  {| name := "plainTime";
     check := fun v => instanceOf KPlainTime v;
     parse := fun v => from KPlainTime v;
     compare := Some (fun a b => PlainTime_compare a b);
     now := Some (let* t := Now_plainTimeISO in ret (VTemporal (PlainTime t)));
     baseMessage :=
       "{{#label}} must be a valid ISO 8601 time string or Temporal.PlainTime";
     compareMessages := None;
     extraMessages := None;
     extraRules := None |}.

Definition plainDateTimeConfig : TypeConfig :=
  {| name := "plainDateTime";
     check := fun v => instanceOf KPlainDateTime v;
     parse := fun v => from KPlainDateTime v;
     compare := Some (fun a b => PlainDateTime_compare a b);
     now := Some (let* dt := Now_plainDateTimeISO in
                  ret (VTemporal (PlainDateTime (fst dt) (snd dt))));
     baseMessage :=
       "{{#label}} must be a valid ISO 8601 date-time string or Temporal.PlainDateTime";
     compareMessages := None;
     extraMessages := None;
     extraRules := None |}.

Definition timezoneRule : Rule :=
  {| rule_method := fun this actuals =>
       let tz := argument 0 actuals in
       addRule this {| ro_name := "timezone"; ro_args := {[ "tz" := tz ]} |};
     rule_args := [];
     rule_validate := Some (fun value args =>
       let tz := property "tz" args in
       let* id := get_timeZoneId value in
       if notStrictEqual id tz
       then ret (RetError (helpers_error "temporal.zonedDateTime.timezone"
                   {[ "timezone" := tz ]}))
       else ret (RetValue value)) |}.

Definition zonedDateTimeConfig : TypeConfig :=
  {| name := "zonedDateTime";
     check := fun v => instanceOf KZonedDateTime v;
     parse := fun v => from KZonedDateTime v;
     compare := Some (fun a b => ZonedDateTime_compare a b);
     now := None;
     baseMessage :=
       "{{#label}} must be a valid ISO 8601 date-time string with timezone or Temporal.ZonedDateTime";
     compareMessages := None;
     extraMessages := Some
       {[ "temporal.zonedDateTime.timezone" :=
            "{{#label}} must be in timezone {#timezone}" ]};
     extraRules := Some {[ "timezone" := timezoneRule ]} |}.

Definition instantConfig : TypeConfig :=
  {| name := "instant";
     check := fun v => instanceOf KInstant v;
     parse := fun v => from KInstant v;
     compare := Some (fun a b => Instant_compare a b);
     now := None;
     baseMessage :=
       "{{#label}} must be a valid ISO 8601 string with offset or Temporal.Instant";
     compareMessages := None;
     extraMessages := None;
     extraRules := None |}.

Definition positiveRule : Rule :=
  {| rule_method := fun this _ =>
       addRule this {| ro_name := "positive"; ro_args := ∅ |};
     rule_args := [];
     rule_validate := Some (fun value _ =>
       let* sign := get_sign value in
       if lessOrEqual sign 0
       then ret (RetError (helpers_error "temporal.duration.positive" ∅))
       else ret (RetValue value)) |}.

Definition negativeRule : Rule :=
  {| rule_method := fun this _ =>
       addRule this {| ro_name := "negative"; ro_args := ∅ |};
     rule_args := [];
     rule_validate := Some (fun value _ =>
       let* sign := get_sign value in
       if greaterOrEqual sign 0
       then ret (RetError (helpers_error "temporal.duration.negative" ∅))
       else ret (RetValue value)) |}.

Definition nonzeroRule : Rule :=
  {| rule_method := fun this _ =>
       addRule this {| ro_name := "nonzero"; ro_args := ∅ |};
     rule_args := [];
     rule_validate := Some (fun value _ =>
       let* sign := get_sign value in
       if strictEqualNumber sign 0
       then ret (RetError (helpers_error "temporal.duration.nonzero" ∅))
       else ret (RetValue value)) |}.

Definition durationConfig : TypeConfig :=
  {| name := "duration";
     check := fun v => instanceOf KDuration v;
     parse := fun v => from KDuration v;
     compare := Some (fun a b =>
       let* today := Now_plainDateISO in
       Duration_compare a b today);
     now := None;
     compareMessages := Some
       (<["min" := "{{#label}} must be at least {#limit}"]>
       (<["max" := "{{#label}} must be at most {#limit}"]>
       (<["gt" := "{{#label}} must be more than {#limit}"]>
       (<["lt" := "{{#label}} must be less than {#limit}"]> ∅))));
     baseMessage :=
       "{{#label}} must be a valid ISO 8601 duration string or Temporal.Duration";
     extraMessages := Some
       (<["temporal.duration.positive" :=
            "{{#label}} must be a positive duration"]>
       (<["temporal.duration.negative" :=
            "{{#label}} must be a negative duration"]>
       (<["temporal.duration.nonzero" := "{{#label}} must not be zero"]> ∅)));
     extraRules := Some
       (<["positive" := positiveRule]>
       (<["negative" := negativeRule]>
       (<["nonzero" := nonzeroRule]> ∅))) |}.

Definition plainYearMonthConfig : TypeConfig :=
  {| name := "plainYearMonth";
     check := fun v => instanceOf KPlainYearMonth v;
     parse := fun v => from KPlainYearMonth v;
     compare := Some (fun a b => PlainYearMonth_compare a b);
     now := None;
     baseMessage :=
       "{{#label}} must be a valid ISO 8601 year-month string or Temporal.PlainYearMonth";
     compareMessages := None;
     extraMessages := None;
     extraRules := None |}.

Definition plainMonthDayConfig : TypeConfig :=
  {| name := "plainMonthDay";
     check := fun v => instanceOf KPlainMonthDay v;
     parse := fun v => from KPlainMonthDay v;
     compare := None;
     now := None;
     baseMessage :=
       "{{#label}} must be a valid ISO 8601 month-day string or Temporal.PlainMonthDay";
     compareMessages := None;
     extraMessages := None;
     extraRules := None |}.

(** The descriptor of each kind, for statements that range over kinds. *)
Definition configOf (k : Kind) : TypeConfig :=
  match k with
  | KPlainDate => plainDateConfig
  | KPlainTime => plainTimeConfig
  | KPlainDateTime => plainDateTimeConfig
  | KZonedDateTime => zonedDateTimeConfig
  | KInstant => instantConfig
  | KDuration => durationConfig
  | KPlainYearMonth => plainYearMonthConfig
  | KPlainMonthDay => plainMonthDayConfig
  end.

Definition extensions : list (JoiRoot -> Extension) :=
  [ makeExtension plainDateConfig;
    makeExtension plainTimeConfig;
    makeExtension plainDateTimeConfig;
    makeExtension zonedDateTimeConfig;
    makeExtension instantConfig;
    makeExtension durationConfig;
    makeExtension plainYearMonthConfig;
    makeExtension plainMonthDayConfig ].

(** Loading the module: the availability check runs first and throws when
    the global [Temporal] is undefined; only then is the list of extension
    factories built and exported. *)
Definition loadModule (temporalDefined : bool)
  : Exc (list (JoiRoot -> Extension)) :=
  if negb temporalDefined
  then Throw (Error
    ("joi-temporal requires the Temporal API. " +:+
     "Use a supported runtime (Node 22+ with --harmony-temporal, Chrome 144+, Firefox 139+) " +:+
     "or install a polyfill (temporal-polyfill, @js-temporal/polyfill)."))
  else Ok extensions.

End Engine.

(** ** A reference text layer

    A small, executable stand-in for the text layer of the date/time
    library, used to run the module on concrete inputs.  It reads and prints
    the plain extended ISO 8601 forms (dates [YYYY-MM-DD], times
    [HH:MM] and [HH:MM:SS], date-times joined by [T], instants ending in
    [Z], zoned date-times in UTC, year-months, month-days, durations with
    integer components).  Strings outside these forms are not covered: the
    stand-in rejects them with a RangeError, which is also what the library
    does with a string outside its grammar.  Conversions between kinds are
    not covered either: [fromOther] rejects with a TypeError. *)

Module IsoText.

Import Temporal.

Definition showZ (z : Z) : string := NilZero.string_of_int (Z.to_int z).

Fixpoint zeros (n : nat) : string :=
  match n with
  | O => ""
  | S k => "0" +:+ zeros k
  end.

(** A non-negative number, left-padded with zeros to [width] digits. *)
Definition padded (width : nat) (z : Z) : string :=
  let digits := showZ z in
  zeros (width - String.length digits) +:+ digits.

Definition showYear (y : Z) : string :=
  if (0 <=? y) && (y <=? 9999) then padded 4 y
  else (if y <? 0 then "-" else "+") +:+ padded 6 (Z.abs y).

Definition showDate (d : ISODate) : string :=
  showYear (year d) +:+ "-" +:+ padded 2 (month d) +:+ "-" +:+ padded 2 (day d).

Fixpoint dropZeros (l : list ascii) : list ascii :=
  match l with
  | c :: rest => if Ascii.eqb c "0" then dropZeros rest else l
  | [] => []
  end.

(** The fractional part of a second, without trailing zeros. *)
Definition showFraction (ns : Z) : string :=
  if ns =? 0 then ""
  else "." +:+ string_of_list_ascii
         (rev (dropZeros (rev (list_ascii_of_string (padded 9 ns))))).

Definition showTime (t : TimeRecord) : string :=
  padded 2 (hour t) +:+ ":" +:+ padded 2 (minute t) +:+ ":" +:+
  padded 2 (second t) +:+
  showFraction (millisecond t * 1000000 + microsecond t * 1000 + nanosecond t).

(** The proleptic Gregorian date of a day number (inverse of
    [ISODateToEpochDays]). *)
Definition dateOfEpochDays (e : Z) : ISODate :=
  let z := e + 719468 in
  let era := z / 146097 in
  let doe := z - era * 146097 in
  let yoe := (doe - doe / 1460 + doe / 36524 - doe / 146096) / 365 in
  let doy := doe - (365 * yoe + yoe / 4 - yoe / 100) in
  let mp := (5 * doy + 2) / 153 in
  let d := doy - (153 * mp + 2) / 5 + 1 in
  let m := if mp <? 10 then mp + 3 else mp - 9 in
  mkISODate (yoe + era * 400 + (if m <=? 2 then 1 else 0)) m d.

Definition timeOfDayNs (n : Z) : TimeRecord :=
  mkTime (n / 3600000000000) (n / 60000000000 mod 60)
         (n / 1000000000 mod 60) (n / 1000000 mod 1000)
         (n / 1000 mod 1000) (n mod 1000).

Definition showEpoch (ns : Z) : string :=
  showDate (dateOfEpochDays (ns / nsPerDay)) +:+ "T" +:+
  showTime (timeOfDayNs (ns mod nsPerDay)).

Definition showOffset (off : Z) : string :=
  let a := Z.abs off / 60000000000 in
  (if off <? 0 then "-" else "+") +:+
  padded 2 (a / 60) +:+ ":" +:+ padded 2 (a mod 60).

Definition showUnit (n : Z) (designator : string) : string :=
  if n =? 0 then "" else showZ (Z.abs n) +:+ designator.

Definition showDuration (d : DurationRecord) : string :=
  let secondsNs := Z.abs (1000000000 * seconds d + 1000000 * milliseconds d
                          + 1000 * microseconds d + nanoseconds d) in
  let noneAboveSeconds :=
    forallb (fun x => x =? 0)
            [years d; months d; weeks d; days d; hours d; minutes d] in
  let timePart :=
    showUnit (hours d) "H" +:+ showUnit (minutes d) "M" +:+
    (if negb (secondsNs =? 0) || noneAboveSeconds
     then showZ (secondsNs / 1000000000) +:+
          showFraction (secondsNs mod 1000000000) +:+ "S"
     else "") in
  (if DurationSign d <? 0 then "-" else "") +:+ "P" +:+
  showUnit (years d) "Y" +:+ showUnit (months d) "M" +:+
  showUnit (weeks d) "W" +:+ showUnit (days d) "D" +:+
  (if String.eqb timePart "" then "" else "T" +:+ timePart).

Definition show (o : TemporalObj) : string :=
  match o with
  | PlainDate d => showDate d
  | PlainTime t => showTime t
  | PlainDateTime d t => showDate d +:+ "T" +:+ showTime t
  | ZonedDateTime z =>
      showEpoch (epochNanoseconds z + offsetNanoseconds z) +:+
      showOffset (offsetNanoseconds z) +:+ "[" +:+ timeZoneId z +:+ "]"
  | Instant ns => showEpoch ns +:+ "Z"
  | Duration d => showDuration d
  | PlainYearMonth d => showYear (year d) +:+ "-" +:+ padded 2 (month d)
  | PlainMonthDay d => padded 2 (month d) +:+ "-" +:+ padded 2 (day d)
  end.

(** *** Reading *)

Definition digitValue (c : ascii) : option Z :=
  let n := Z.of_N (N_of_ascii c) in
  if (48 <=? n) && (n <=? 57) then Some (n - 48) else None.

(** Exactly [n] digits at the head of the input. *)
Fixpoint fixedDigits (n : nat) (acc : Z) (l : list ascii)
  : option (Z * list ascii) :=
  match n with
  | O => Some (acc, l)
  | S k =>
      match l with
      | c :: rest => d ← digitValue c; fixedDigits k (10 * acc + d) rest
      | [] => None
      end
  end.

Definition expect (c : ascii) (l : list ascii) : option (list ascii) :=
  match l with
  | x :: rest => if Ascii.eqb x c then Some rest else None
  | [] => None
  end.

Definition validDate (y m d : Z) : bool :=
  IsValidISODate (mkISODate y m d).

Definition readDate (l : list ascii) : option (ISODate * list ascii) :=
  '(y, l) ← fixedDigits 4 0 l;
  l ← expect "-" l;
  '(m, l) ← fixedDigits 2 0 l;
  l ← expect "-" l;
  '(d, l) ← fixedDigits 2 0 l;
  if validDate y m d then Some (mkISODate y m d, l) else None.

Definition readTime (l : list ascii) : option (TimeRecord * list ascii) :=
  '(h, l) ← fixedDigits 2 0 l;
  l ← expect ":" l;
  '(mi, l) ← fixedDigits 2 0 l;
  '(s, l) ← match expect ":" l with
            | Some l' => fixedDigits 2 0 l'
            | None => Some (0, l)
            end;
  if (h <=? 23) && (mi <=? 59) && (s <=? 59)
  then Some (mkTime h mi s 0 0 0, l) else None.

Definition readDateTime (l : list ascii)
  : option (ISODate * TimeRecord * list ascii) :=
  '(d, l) ← readDate l;
  l ← expect "T" l;
  '(t, l) ← readTime l;
  Some (d, t, l).

Definition epochOf (d : ISODate) (t : TimeRecord) : Z :=
  ISODateToEpochDays (year d) (month d) (day d) * nsPerDay
  + 3600000000000 * hour t + 60000000000 * minute t
  + 1000000000 * second t.

(** A run of digits (at least one), as a number. *)
Fixpoint digitRun (l : list ascii) (acc : option Z)
  : option Z * list ascii :=
  match l with
  | c :: rest =>
      match digitValue c with
      | Some d => digitRun rest (Some (10 * default 0 acc + d))
      | None => (acc, l)
      end
  | [] => (acc, l)
  end.

(** The components [<n><designator>] of one half of a duration, each
    designator at most once and in order; [None] marks an absent one. *)
Fixpoint readUnits (designators : list ascii) (l : list ascii)
  : list (option Z) * list ascii :=
  match designators with
  | [] => ([], l)
  | u :: more =>
      match digitRun l None with
      | (Some n, c :: rest) =>
          if Ascii.eqb c u
          then let r := readUnits more rest in (Some n :: fst r, snd r)
          else let r := readUnits more l in (None :: fst r, snd r)
      | _ => let r := readUnits more l in (None :: fst r, snd r)
      end
  end.

Definition present (x : option Z) : bool :=
  match x with Some _ => true | None => false end.

Definition component (i : nat) (xs : list (option Z)) : Z :=
  default 0 (nth i xs None).

Definition readDuration (l : list ascii) : option DurationRecord :=
  let signed := match l with
                | c :: rest => if Ascii.eqb c "-" then (-1, rest) else (1, l)
                | [] => (1, l)
                end in
  let sign := fst signed in
  l ← expect "P" (snd signed);
  let dateHalf := readUnits ["Y"; "M"; "W"; "D"]%char l in
  timeHalf ← match expect "T" (snd dateHalf) with
             | Some l' =>
                 let r := readUnits ["H"; "M"; "S"]%char l' in
                 if existsb present (fst r) then Some r else None
             | None => Some ([], snd dateHalf)
             end;
  match snd timeHalf with
  | [] =>
      if existsb present (fst dateHalf ++ fst timeHalf)%list
      then Some (mkDuration
                   (sign * component 0 (fst dateHalf))
                   (sign * component 1 (fst dateHalf))
                   (sign * component 2 (fst dateHalf))
                   (sign * component 3 (fst dateHalf))
                   (sign * component 0 (fst timeHalf))
                   (sign * component 1 (fst timeHalf))
                   (sign * component 2 (fst timeHalf)) 0 0 0)
      else None
  | _ => None
  end.

Definition orRangeError {A} (o : option A) : Exc A :=
  match o with
  | Some a => Ok a
  | None => Throw RangeError
  end.

(** The parse succeeds only when it consumes the whole input. *)
Definition whole {A} (r : option (A * list ascii)) : option A :=
  '(a, rest) ← r;
  match rest with
  | [] => Some a
  | _ => None
  end.

Definition read (k : Kind) (text : string) : Exc (payload k) :=
  let l := list_ascii_of_string text in
  match k return Exc (payload k) with
  | KPlainDate => orRangeError (whole (readDate l))
  | KPlainTime => orRangeError (whole (readTime l))
  | KPlainDateTime => orRangeError (whole (readDateTime l))
  | KZonedDateTime =>
      orRangeError
        ('(dt, rest) ← readDateTime l;
         if String.eqb (string_of_list_ascii rest) "+00:00[UTC]"
         then Some (mkZoned (epochOf (fst dt) (snd dt)) "UTC" 0)
         else None)
  | KInstant =>
      orRangeError
        ('(dt, rest) ← readDateTime l;
         if String.eqb (string_of_list_ascii rest) "Z"
         then Some (epochOf (fst dt) (snd dt))
         else None)
  | KDuration => orRangeError (readDuration l)
  | KPlainYearMonth =>
      orRangeError (whole (
        '(y, l) ← fixedDigits 4 0 l;
        l ← expect "-" l;
        '(m, l) ← fixedDigits 2 0 l;
        if (1 <=? m) && (m <=? 12) then Some (mkISODate y m 1, l) else None))
  | KPlainMonthDay =>
      orRangeError (whole (
        '(m, l) ← fixedDigits 2 0 l;
        l ← expect "-" l;
        '(d, l) ← fixedDigits 2 0 l;
        if validDate 1972 m d then Some (mkISODate 1972 m d, l) else None))
  end.

Definition platform : Platform :=
  {| fromText := read;
     fromOther := fun _ _ => Throw TypeError;
     toString := show;
     numberToString := showZ |}.

End IsoText.

(** ** Sample inputs *)

Module Sample.

Import Temporal.

Definition joi : JoiRoot := {| any := {| sch_type := "any"; sch_rules := [] |} |}.

Definition date (y m d : Z) : Val := VTemporal (PlainDate (mkISODate y m d)).

Definition midnight : TimeRecord := mkTime 0 0 0 0 0 0.

(** A clock showing midnight on the given date. *)
Definition clockOn (y m d : Z) : Clock := mkClock (mkISODate y m d) midnight.

Definition time (h m : Z) : Val := VTemporal (PlainTime (mkTime h m 0 0 0 0)).

(** The given time on 15 March 2024, as a date-time. *)
Definition dateTime (h m : Z) : Val :=
  VTemporal (PlainDateTime (mkISODate 2024 3 15) (mkTime h m 0 0 0 0)).

(** A clock showing the given time on 15 March 2024. *)
Definition clockAt (h m : Z) : Clock :=
  mkClock (mkISODate 2024 3 15) (mkTime h m 0 0 0 0).

Definition oneMonth : DurationRecord := mkDuration 0 1 0 0 0 0 0 0 0 0.
Definition thirtyDays : DurationRecord := mkDuration 0 0 0 30 0 0 0 0 0 0.
Definition twoDays : DurationRecord := mkDuration 0 0 0 2 0 0 0 0 0 0.
Definition fiftyHours : DurationRecord := mkDuration 0 0 0 0 50 0 0 0 0 0.

(** 14:30 on 15 January 2021 UTC, as seen in two zones. *)
Definition inBerlin : Val :=
  VTemporal (ZonedDateTime (mkZoned 1610721000000000000 "Europe/Berlin"
                                    3600000000000)).
Definition inUTC : Val :=
  VTemporal (ZonedDateTime (mkZoned 1610721000000000000 "UTC" 0)).

Definition plainDate : Extension :=
  makeExtension IsoText.platform (plainDateConfig IsoText.platform) joi.
Definition instant : Extension :=
  makeExtension IsoText.platform (instantConfig IsoText.platform) joi.
Definition duration : Extension :=
  makeExtension IsoText.platform (durationConfig IsoText.platform) joi.
Definition plainMonthDay : Extension :=
  makeExtension IsoText.platform (plainMonthDayConfig IsoText.platform) joi.
Definition zonedDateTime : Extension :=
  makeExtension IsoText.platform (zonedDateTimeConfig IsoText.platform) joi.

(** [custom.<type>().<rule>(...actuals)], built at the given moment; the
    empty schema stands in when the call throws. *)
Definition schemaWith (ext : Extension) (rule : string) (actuals : list Val)
    (clk : Clock) : Schema :=
  match attach ext rule actuals (newSchema ext) clk with
  | Ok s => s
  | Throw _ => newSchema ext
  end.

End Sample.

(** ** Vocabulary of the statements *)

(** The names of the comparison family. *)
Definition comparisonNames : list string :=
  ["min"; "max"; "gt"; "lt"; "gte"; "lte"].

(** What the validate of the rule named [rule] in the extension's table
    does with a value and the rule's arguments, at a given moment; [None]
    when the table has no such rule or the rule has no validate. *)
Definition ruleOutcome (ext : Extension) (rule : string) (value : Val)
    (args : gmap string Val) (clk : Clock) : option (Exc RuleReturn) :=
  (λ f : Val → gmap string Val → M RuleReturn, f value args clk)
    <$> (rules ext !! rule ≫= rule_validate).

(** The extension the module exports for a kind. *)
Definition extensionOf (P : Platform) (k : Kind) (joi : JoiRoot) : Extension :=
  makeExtension P (configOf P k) joi.

(** The message-code prefix of a kind. *)
Definition prefixOf (P : Platform) (k : Kind) : string :=
  "temporal." +:+ name (configOf P k).

(** A rule outcome that accepts the value: the validate returned the value
    itself. *)
Definition accepts (o : option (Exc RuleReturn)) (value : Val) : Prop :=
  o = Some (Ok (RetValue value)).

(** A rule outcome that rejects the value: the validate returned an error
    report. *)
Definition rejects (o : option (Exc RuleReturn)) : Prop :=
  ∃ e, o = Some (Ok (RetError e)).

(** The error report a comparison rule raises against a resolved limit. *)
Definition limitError (P : Platform) (k : Kind) (rule : string) (L : Val)
  : ErrorReport :=
  helpers_error (prefixOf P k +:+ "." +:+ rule)
                {[ "limit" := VString (js_String P L) ]}.

(** The rule a schema keeps when a comparison rule is attached with the
    token "now". *)
Definition nowRule (rule : string) : RuleOptions :=
  {| ro_name := rule; ro_args := {[ "limit" := VString "now" ]} |}.

(** A schema with the given rules appended. *)
Definition withRules (s : Schema) (more : list RuleOptions) : Schema :=
  {| sch_type := sch_type s; sch_rules := (sch_rules s ++ more)%list |}.

(** ** The test helpers

    The helpers of the test suite see a schema only through its [validate]
    method and the result object that method returns. *)

Module Helpers.

(** One entry of [error.details]. *)
Record Detail := mkDetail {
  detail_type : string;
  detail_message : string }.

Record ValidationError := mkValidationError {
  message : string;
  details : list Detail }.

(** [{ error, value }]; [error] is [undefined] when validation passed. *)
Record ValidationResult := mkValidationResult {
  error : option ValidationError;
  value : Val }.

(** A schema, as the helpers use it: an object with a [validate] method. *)
Record JoiSchema := mkJoiSchema {
  schema_validate : Val -> M ValidationResult }.

(** The double-quote character, as a string. *)
Definition quote : string := String (ascii_of_nat 34) EmptyString.

Definition validate (schema : JoiSchema) (input : Val) : M ValidationResult :=
  schema_validate schema input.

Definition expectPass (schema : JoiSchema) (input : Val) : M Val :=
  let* r := schema_validate schema input in
  match error r with
  | Some e =>
      throw (Error ("Expected validation to pass but got: " +:+ message e))
  | None => ret (value r)
  end.

(** [code && ...]: an absent code and the empty string are both falsy. *)
Definition truthyCode (code : option string) : option string :=
  match code with
  | Some c => if String.eqb c "" then None else Some c
  | None => None
  end.

Definition expectError (schema : JoiSchema) (input : Val)
    (code : option string) : M ValidationError :=
  let* r := schema_validate schema input in
  match error r with
  | None => throw (Error "Expected validation to fail but it passed")
  | Some e =>
      match truthyCode code with
      | None => ret e
      | Some c =>
          match details e with
          | [] => throw TypeError
          | first :: _ =>
              if negb (String.eqb (detail_type first) c)
              then throw (Error
                     ("Expected error code " +:+ quote +:+ c +:+ quote +:+
                      " but got " +:+ quote +:+ detail_type first +:+ quote +:+
                      ": " +:+ message e))
              else ret e
          end
      end
  end.

End Helpers.

(** A compiled schema of one of the extensions, as the helpers see it.
    Modelled from the spec: the host turns an error report into an error
    whose first detail has the report's code as its type; the rendering of
    message templates is not modelled and the code stands for the text. *)
Definition asJoiSchema (ext : Extension) (s : Schema) : Helpers.JoiSchema :=
  {| Helpers.schema_validate := fun input =>
       let* r := schemaValidate ext s input in
       ret {| Helpers.error :=
                option_map (fun e =>
                  {| Helpers.message := code e;
                     Helpers.details :=
                       [ {| Helpers.detail_type := code e;
                            Helpers.detail_message := code e |} ] |})
                  (res_errors r);
              Helpers.value := default VUndefined (res_value r) |} |}.

(** The message codes of an extension: the keys of its message table. *)
Definition messageCodes (ext : Extension) : list string :=
  (map_to_list (messages ext)).*1.

(** The eight kinds, in the order of the extension list. *)
Definition allKinds : list Kind :=
  [ KPlainDate; KPlainTime; KPlainDateTime; KZonedDateTime;
    KInstant; KDuration; KPlainYearMonth; KPlainMonthDay ].

(** The check that every message code of every kind starts with that
    kind's prefix and is a code of no other kind. *)
Definition codesScoped (P : Platform) (joi : JoiRoot) : bool :=
  forallb (fun k =>
    forallb (fun key =>
      String.prefix ("temporal." +:+ type (extensionOf P k joi) +:+ ".") key
      && forallb (fun k' =>
           Kind_eqb k' k
           || negb (existsb (String.eqb key)
                      (messageCodes (extensionOf P k' joi))))
         allKinds)
      (messageCodes (extensionOf P k joi)))
    allKinds.

(** * Properties *)

(** ** The scenarios of the specification, run on the sample extensions *)

Example scenario_overflow :
  schemaValidate Sample.plainDate (newSchema Sample.plainDate)
                 (VString "2021-02-31") (Sample.clockOn 2024 3 15)
  = Ok (mkResult None (Some (helpers_error "temporal.plainDate.base" ∅))).
Proof. reflexivity. Qed.

Example scenario_leap_year :
  let run text := schemaValidate Sample.plainDate (newSchema Sample.plainDate)
                    (VString text) (Sample.clockOn 2024 3 15) in
  run "2024-02-29" = Ok (mkResult (Some (Sample.date 2024 2 29)) None)
  ∧ run "2023-02-29"
    = Ok (mkResult None (Some (helpers_error "temporal.plainDate.base" ∅))).
Proof. split; reflexivity. Qed.

Example scenario_min_now :
  let built := Sample.clockOn 2020 1 1 in
  let today := Sample.clockOn 2024 3 15 in
  let s := Sample.schemaWith Sample.plainDate "min" [VString "now"] built in
  schemaValidate Sample.plainDate s (VString "2024-03-15") today
    = Ok (mkResult (Some (Sample.date 2024 3 15)) None)
  ∧ schemaValidate Sample.plainDate s (VString "2024-03-14") today
    = Ok (mkResult (Some (Sample.date 2024 3 14))
            (Some (helpers_error "temporal.plainDate.min"
                     {[ "limit" := VString "2024-03-15" ]}))).
Proof. split; reflexivity. Qed.

Example scenario_zero_duration :
  let clk := Sample.clockOn 2024 3 15 in
  let zero := VTemporal (Duration (Temporal.mkDuration 0 0 0 0 0 0 0 0 0 0)) in
  schemaValidate Sample.duration
    (Sample.schemaWith Sample.duration "nonzero" [] clk) (VString "PT0S") clk
    = Ok (mkResult (Some zero)
            (Some (helpers_error "temporal.duration.nonzero" ∅)))
  ∧ schemaValidate Sample.duration
    (Sample.schemaWith Sample.duration "positive" [] clk) (VString "PT0S") clk
    = Ok (mkResult (Some zero)
            (Some (helpers_error "temporal.duration.positive" ∅))).
Proof. split; reflexivity. Qed.

Example scenario_duration_min :
  let clk := Sample.clockOn 2024 3 15 in
  let s := Sample.schemaWith Sample.duration "min" [VString "PT1H"] clk in
  schemaValidate Sample.duration s (VString "PT2H") clk
    = Ok (mkResult (Some (VTemporal (Duration
            (Temporal.mkDuration 0 0 0 0 2 0 0 0 0 0)))) None)
  ∧ schemaValidate Sample.duration s (VString "PT30M") clk
    = Ok (mkResult (Some (VTemporal (Duration
            (Temporal.mkDuration 0 0 0 0 0 30 0 0 0 0))))
            (Some (helpers_error "temporal.duration.min"
                     {[ "limit" := VString "PT1H" ]}))).
Proof. split; reflexivity. Qed.

Example scenario_same_instant_two_zones :
  let clk := Sample.clockOn 2024 3 15 in
  schemaValidate Sample.zonedDateTime
    (Sample.schemaWith Sample.zonedDateTime "min" [Sample.inUTC] clk)
    Sample.inBerlin clk
    = Ok (mkResult (Some Sample.inBerlin) None)
  ∧ schemaValidate Sample.zonedDateTime
    (Sample.schemaWith Sample.zonedDateTime "max" [Sample.inUTC] clk)
    Sample.inBerlin clk
    = Ok (mkResult (Some Sample.inBerlin) None)
  ∧ schemaValidate Sample.zonedDateTime
    (Sample.schemaWith Sample.zonedDateTime "timezone" [VString "UTC"] clk)
    Sample.inBerlin clk
    = Ok (mkResult (Some Sample.inBerlin)
            (Some (helpers_error "temporal.zonedDateTime.timezone"
                     {[ "timezone" := VString "UTC" ]}))).
Proof. repeat split; reflexivity. Qed.

Example scenario_rule_order :
  let clk := Sample.clockOn 2024 3 15 in
  (let* s1 := attach Sample.plainDate "min" [VString "2020-01-01"]
                     (newSchema Sample.plainDate) in
   attach Sample.plainDate "max" [VString "2025-12-31"] s1) clk
  = Ok {| sch_type := "plainDate";
          sch_rules :=
            [ {| ro_name := "min";
                 ro_args := {[ "limit" := VString "2020-01-01" ]} |};
              {| ro_name := "max";
                 ro_args := {[ "limit" := VString "2025-12-31" ]} |} ] |}.
Proof. reflexivity. Qed.

(** ** Coercion *)

Section Coercion.

Variable P : Platform.
Variable config : TypeConfig.
Variable joi : JoiRoot.

Local Abbreviation ext := (makeExtension P config joi).
Local Abbreviation baseError :=
  (helpers_error (("temporal." +:+ name config) +:+ ".base") ∅).

Lemma coerce_passthrough v clk :
  isNullish v || check config v = true →
  coerce ext v clk = Ok (mkResult (Some v) None).
Proof. intros H. cbn. rewrite H. reflexivity. Qed.

Lemma coerce_not_string v clk :
  isNullish v || check config v = false → isString v = false →
  coerce ext v clk = Ok (mkResult None (Some baseError)).
Proof.
  intros H Hs. cbn. rewrite H.
  destruct v; try reflexivity. discriminate Hs.
Qed.

Lemma coerce_string text clk :
  check config (VString text) = false →
  coerce ext (VString text) clk =
    match parse config text clk with
    | Ok parsed => Ok (mkResult (Some parsed) None)
    | Throw _ => Ok (mkResult None (Some baseError))
    end.
Proof.
  intros H. cbn. rewrite H. cbn.
  unfold try_catch, bind, ret. destruct (parse config text clk); reflexivity.
Qed.

End Coercion.

(** C1.  The synthesized coerce of any descriptor, on any input [v]: a
    null or undefined [v], or an instance, is returned as it is; any other
    non-string fails with the code [temporal.<name>.base]; a string is
    parsed, the parsed value replaces it when the parse succeeds, and any
    exception of the parse is turned into the same base error. *)
Theorem coerce_spec (P : Platform) (config : TypeConfig) (joi : JoiRoot)
    (v : Val) (clk : Clock) :
  let ext := makeExtension P config joi in
  let baseError :=
    helpers_error (("temporal." +:+ name config) +:+ ".base") ∅ in
  (isNullish v || check config v = true →
     coerce ext v clk = Ok (mkResult (Some v) None))
  ∧ (isNullish v || check config v = false → isString v = false →
     coerce ext v clk = Ok (mkResult None (Some baseError)))
  ∧ (∀ text, v = VString text → check config v = false →
     (∀ parsed, parse config text clk = Ok parsed →
        coerce ext v clk = Ok (mkResult (Some parsed) None))
     ∧ (∀ e, parse config text clk = Throw e →
        coerce ext v clk = Ok (mkResult None (Some baseError)))).
Proof.
  intros ext baseError. split; [|split].
  - apply coerce_passthrough.
  - apply coerce_not_string.
  - intros text -> Hc.
    pose proof (coerce_string P config joi text clk Hc) as H.
    split; [intros parsed Hp | intros e Hp]; rewrite Hp in H; exact H.
Qed.

(** The four branches, on the calendar-date kind: an instance passes through,
    a number is refused, a leap day is parsed, a 31st of February is refused. *)
Lemma coerce_spec_witness :
  let clk := Sample.clockOn 2024 3 15 in
  let baseError := helpers_error "temporal.plainDate.base" ∅ in
  coerce Sample.plainDate (Sample.date 2024 2 29) clk
    = Ok (mkResult (Some (Sample.date 2024 2 29)) None)
  ∧ coerce Sample.plainDate (VNumber 42) clk
    = Ok (mkResult None (Some baseError))
  ∧ coerce Sample.plainDate (VString "2024-02-29") clk
    = Ok (mkResult (Some (Sample.date 2024 2 29)) None)
  ∧ coerce Sample.plainDate (VString "2021-02-31") clk
    = Ok (mkResult None (Some baseError)).
Proof.
  intros clk baseError.
  pose (cfg := plainDateConfig IsoText.platform).
  split; [|split; [|split]].
  - apply (proj1 (coerce_spec IsoText.platform cfg Sample.joi
                    (Sample.date 2024 2 29) clk)).
    reflexivity.
  - apply (proj1 (proj2 (coerce_spec IsoText.platform cfg Sample.joi
                    (VNumber 42) clk))); reflexivity.
  - apply (proj1 (proj2 (proj2 (coerce_spec IsoText.platform cfg Sample.joi
                    (VString "2024-02-29") clk)) _ eq_refl eq_refl)).
    reflexivity.
  - apply (proj2 (proj2 (proj2 (coerce_spec IsoText.platform cfg Sample.joi
                    (VString "2021-02-31") clk)) _ eq_refl eq_refl) RangeError).
    reflexivity.
Defined.

(** ** The rule table *)

Lemma assign_lookup {A} (target : gmap string A) source key :
  assign target source !! key =
    match source ≫= (.!! key) with
    | Some x => Some x
    | None => target !! key
    end.
Proof.
  destruct source as [src|]; cbn; [|reflexivity].
  rewrite lookup_union. destruct (src !! key), (target !! key); reflexivity.
Qed.

Lemma rules_without_compare P config joi :
  compare config = None →
  rules (makeExtension P config joi) = default ∅ (extraRules config).
Proof.
  intros H. cbn. rewrite H. cbn.
  destruct (extraRules config) as [extra|]; cbn; [|reflexivity].
  apply map_eq. intros key. rewrite lookup_union, lookup_empty.
  destruct (extra !! key); reflexivity.
Qed.

Lemma rules_with_compare P config joi cmp :
  compare config = Some cmp →
  rules (makeExtension P config joi) =
    assign
      (<["lte" := aliasRule "max"]>
      (<["gte" := aliasRule "min"]>
      (<["lt" := comparisonRule P config ("temporal." +:+ name config) cmp
                   "lt" (fun c => c <? 0)]>
      (<["gt" := comparisonRule P config ("temporal." +:+ name config) cmp
                   "gt" (fun c => c >? 0)]>
      (<["max" := comparisonRule P config ("temporal." +:+ name config) cmp
                    "max" (fun c => c <=? 0)]>
      (<["min" := comparisonRule P config ("temporal." +:+ name config) cmp
                    "min" (fun c => c >=? 0)]> ∅))))))
      (extraRules config).
Proof. intros H. cbn. rewrite H. reflexivity. Qed.

Lemma lookup_comparison P config joi cmp rule chk :
  compare config = Some cmp →
  In (rule, chk) CHECKS →
  extraRules config ≫= (.!! rule) = None →
  rules (makeExtension P config joi) !! rule =
    Some (comparisonRule P config ("temporal." +:+ name config) cmp rule chk).
Proof.
  intros Hc Hin Hx. rewrite (rules_with_compare _ _ _ _ Hc), assign_lookup, Hx.
  cbn in Hin.
  destruct Hin as [E|[E|[E|[E|[]]]]]; injection E as <- <-; reflexivity.
Qed.

Lemma lookup_alias P config joi cmp :
  compare config = Some cmp →
  (extraRules config ≫= (.!! "gte") = None →
   rules (makeExtension P config joi) !! "gte" = Some (aliasRule "min"))
  ∧ (extraRules config ≫= (.!! "lte") = None →
   rules (makeExtension P config joi) !! "lte" = Some (aliasRule "max")).
Proof.
  intros Hc.
  split; intros Hx; rewrite (rules_with_compare _ _ _ _ Hc), assign_lookup, Hx;
    reflexivity.
Qed.

(** No descriptor of the module supplies an extra rule under a comparison
    name. *)
Lemma extra_rules_disjoint P k rule :
  In rule comparisonNames →
  extraRules (configOf P k) ≫= (.!! rule) = None.
Proof.
  intros Hin. cbn in Hin.
  destruct Hin as [<-|[<-|[<-|[<-|[<-|[<-|[]]]]]]]; destruct k; reflexivity.
Qed.

(** C5.  A descriptor without a comparator gets no generated rule: its table
    is exactly its extra rules.  Among the eight kinds only the month-day
    kind has no comparator, and its table is empty: none of min, max, gt, lt,
    gte, lte is there.  A descriptor with a comparator has all six names in
    its table, and for the kinds of the module these are the four generated
    rules and the two aliases. *)
Theorem comparison_rules_presence (P : Platform) (joi : JoiRoot) :
  (∀ config, compare config = None →
     rules (makeExtension P config joi) = default ∅ (extraRules config))
  ∧ (∀ k, compare (configOf P k) = None ↔ k = KPlainMonthDay)
  ∧ rules (makeExtension P (plainMonthDayConfig P) joi) = ∅
  ∧ (∀ k rule, compare (configOf P k) = None → In rule comparisonNames →
     rules (extensionOf P k joi) !! rule = None)
  ∧ (∀ config rule, is_Some (compare config) → In rule comparisonNames →
     is_Some (rules (makeExtension P config joi) !! rule))
  ∧ (∀ k cmp, compare (configOf P k) = Some cmp →
     (∀ rule chk, In (rule, chk) CHECKS →
        rules (extensionOf P k joi) !! rule =
          Some (comparisonRule P (configOf P k) (prefixOf P k) cmp rule chk))
     ∧ rules (extensionOf P k joi) !! "gte" = Some (aliasRule "min")
     ∧ rules (extensionOf P k joi) !! "lte" = Some (aliasRule "max")).
Proof.
  split; [|split; [|split; [|split; [|split]]]].
  - intros config H. apply rules_without_compare, H.
  - intros k. split; [destruct k; cbn; congruence | intros ->; reflexivity].
  - rewrite rules_without_compare; reflexivity.
  - intros k rule H Hin. unfold extensionOf.
    rewrite (rules_without_compare _ _ _ H).
    pose proof (extra_rules_disjoint P k rule Hin) as Hx.
    destruct (extraRules (configOf P k)) as [extra|]; cbn in *;
      [exact Hx | apply lookup_empty].
  - intros config rule [cmp Hc] Hin.
    rewrite (rules_with_compare _ _ _ _ Hc), assign_lookup.
    destruct (extraRules config ≫= (.!! rule)); [eauto|].
    cbn in Hin.
    destruct Hin as [<-|[<-|[<-|[<-|[<-|[<-|[]]]]]]]; eexists; reflexivity.
  - intros k cmp Hc. split; [|split].
    + intros rule chk Hin. apply lookup_comparison; [exact Hc | exact Hin |].
      apply extra_rules_disjoint.
      cbn in Hin. destruct Hin as [E|[E|[E|[E|[]]]]]; injection E as <- _;
        cbn; tauto.
    + apply (lookup_alias P _ joi cmp Hc), extra_rules_disjoint. cbn; tauto.
    + apply (lookup_alias P _ joi cmp Hc), extra_rules_disjoint. cbn; tauto.
Qed.

(** On the sample extensions: the month-day schema has no [min]; the
    calendar-date schema has [gte]. *)
Lemma comparison_rules_presence_witness :
  rules Sample.plainMonthDay !! "min" = None
  ∧ is_Some (rules Sample.plainDate !! "gte").
Proof.
  pose proof (comparison_rules_presence IsoText.platform Sample.joi)
    as (_ & _ & _ & Hnone & Hsome & _).
  split.
  - apply (Hnone KPlainMonthDay "min"); [reflexivity | cbn; tauto].
  - apply (Hsome (plainDateConfig IsoText.platform) "gte");
      [eexists; reflexivity | cbn; tauto].
Defined.

(** ** What a comparison rule computes *)

(** The validate of a generated rule, unfolded: resolve the limit, compare,
    apply the tie-break predicate. *)
Lemma ruleOutcome_comparison_gen P config joi cmp rule chk v args clk :
  compare config = Some cmp →
  In (rule, chk) CHECKS →
  extraRules config ≫= (.!! rule) = None →
  ruleOutcome (makeExtension P config joi) rule v args clk =
    Some (match resolveLimit config (property "limit" args) clk with
          | Throw e => Throw e
          | Ok L =>
              match cmp v L clk with
              | Throw e => Throw e
              | Ok c =>
                  if chk c then Ok (RetValue v)
                  else Ok (RetError
                         (helpers_error
                            (("temporal." +:+ name config) +:+ "." +:+ rule)
                            {[ "limit" := VString (js_String P L) ]}))
              end
          end).
Proof.
  intros Hc Hin Hx. unfold ruleOutcome.
  rewrite (lookup_comparison P config joi cmp rule chk Hc Hin Hx). cbn.
  unfold bind.
  destruct (resolveLimit config (property "limit" args) clk) as [L|e];
    [|reflexivity].
  destruct (cmp v L clk) as [c|e]; [|reflexivity].
  destruct (chk c); reflexivity.
Qed.

Lemma ruleOutcome_comparison P k joi cmp rule chk v args clk :
  compare (configOf P k) = Some cmp →
  In (rule, chk) CHECKS →
  ruleOutcome (extensionOf P k joi) rule v args clk =
    Some (match resolveLimit (configOf P k) (property "limit" args) clk with
          | Throw e => Throw e
          | Ok L =>
              match cmp v L clk with
              | Throw e => Throw e
              | Ok c =>
                  if chk c then Ok (RetValue v)
                  else Ok (RetError (limitError P k rule L))
              end
          end).
Proof.
  intros Hc Hin. apply ruleOutcome_comparison_gen; [exact Hc | exact Hin |].
  apply extra_rules_disjoint.
  cbn in Hin. destruct Hin as [E|[E|[E|[E|[]]]]]; injection E as <- _;
    cbn; tauto.
Qed.

Lemma property_singleton key (v : Val) : property key {[ key := v ]} = v.
Proof. unfold property. rewrite lookup_singleton_eq. reflexivity. Qed.

(** With the limit resolved to [L] and the comparison result [c] known, the
    outcome of a generated rule is decided by its predicate alone. *)
Lemma ruleOutcome_decided P k joi cmp rule chk v limit clk L c :
  compare (configOf P k) = Some cmp →
  In (rule, chk) CHECKS →
  resolveLimit (configOf P k) limit clk = Ok L →
  cmp v L clk = Ok c →
  ruleOutcome (extensionOf P k joi) rule v {[ "limit" := limit ]} clk =
    Some (Ok (if chk c then RetValue v else RetError (limitError P k rule L))).
Proof.
  intros Hc Hin HL Hcmp.
  rewrite (ruleOutcome_comparison P k joi cmp rule chk v _ clk Hc Hin).
  rewrite property_singleton, HL, Hcmp. destruct (chk c); reflexivity.
Qed.

Lemma accepts_iff o v e (b : bool) :
  o = Some (Ok (if b then RetValue v else RetError e)) →
  (accepts o v ↔ b = true) ∧ (rejects o ↔ b = false).
Proof.
  intros ->. unfold accepts, rejects. destruct b; split; split; intros H;
    try reflexivity; try discriminate; try (destruct H; discriminate); eauto.
Qed.

(** *** The comparators of the library are reflexive on instances *)

Lemma cmpZ_refl x : Temporal.cmpZ x x = 0.
Proof. unfold Temporal.cmpZ. rewrite Z.ltb_irrefl. reflexivity. Qed.

Lemma CompareISODate_refl d : Temporal.CompareISODate d d = 0.
Proof. unfold Temporal.CompareISODate. rewrite !cmpZ_refl. reflexivity. Qed.

Lemma CompareTimeRecord_refl t : Temporal.CompareTimeRecord t t = 0.
Proof. unfold Temporal.CompareTimeRecord. rewrite !cmpZ_refl. reflexivity. Qed.

Lemma sameFields_refl d : Temporal.sameFields d d = true.
Proof. unfold Temporal.sameFields. cbn. rewrite !Z.eqb_refl. reflexivity. Qed.

Lemma CompareDurations_refl d relativeTo :
  Temporal.CompareDurations d d relativeTo = Ok 0.
Proof. unfold Temporal.CompareDurations. rewrite sameFields_refl. reflexivity. Qed.

Lemma compare_self P k cmp v clk :
  compare (configOf P k) = Some cmp →
  check (configOf P k) v = true →
  cmp v v clk = Ok 0.
Proof.
  intros Hc Hv.
  destruct k; cbn in Hc; try discriminate; injection Hc as <-;
    cbn in Hv; destruct v as [| | | | |o|]; try discriminate;
    destruct o; try discriminate; cbn; unfold bind, ret, liftExc; cbn;
    rewrite ?CompareISODate_refl, ?CompareTimeRecord_refl, ?cmpZ_refl,
            ?CompareDurations_refl;
    try reflexivity.
  unfold Temporal.CompareISODateTime.
  rewrite CompareISODate_refl, CompareTimeRecord_refl. reflexivity.
Qed.

(** An instance given as the limit is the resolved limit. *)
Lemma resolveLimit_instance P k v clk :
  check (configOf P k) v = true →
  resolveLimit (configOf P k) v clk = Ok v.
Proof.
  intros Hv. destruct k; cbn in Hv; destruct v; try discriminate; reflexivity.
Qed.

(** C2.  For a kind with a comparator, a value [v], a limit resolved to [L]
    and [c = compare(v, L)]: min accepts exactly when [c >= 0], max exactly
    when [c <= 0], gt exactly when [c > 0], lt exactly when [c < 0], and a
    rule that does not accept rejects.  With an instance [v] as its own
    limit, min and max accept and gt and lt reject. *)
Theorem tie_break (P : Platform) (k : Kind) (joi : JoiRoot)
    (cmp : Val → Val → M Z) :
  compare (configOf P k) = Some cmp →
  (∀ clk v limit L c,
     resolveLimit (configOf P k) limit clk = Ok L →
     cmp v L clk = Ok c →
     let outcome rule :=
       ruleOutcome (extensionOf P k joi) rule v {[ "limit" := limit ]} clk in
     (accepts (outcome "min") v ↔ c >= 0)
     ∧ (accepts (outcome "max") v ↔ c <= 0)
     ∧ (accepts (outcome "gt") v ↔ c > 0)
     ∧ (accepts (outcome "lt") v ↔ c < 0)
     ∧ (rejects (outcome "min") ↔ ¬ c >= 0)
     ∧ (rejects (outcome "max") ↔ ¬ c <= 0)
     ∧ (rejects (outcome "gt") ↔ ¬ c > 0)
     ∧ (rejects (outcome "lt") ↔ ¬ c < 0))
  ∧ (∀ clk v,
     check (configOf P k) v = true →
     let outcome rule :=
       ruleOutcome (extensionOf P k joi) rule v {[ "limit" := v ]} clk in
     accepts (outcome "min") v ∧ accepts (outcome "max") v
     ∧ rejects (outcome "gt") ∧ rejects (outcome "lt")).
Proof.
  intros Hc.
  assert (Hall : ∀ clk v limit L c,
     resolveLimit (configOf P k) limit clk = Ok L →
     cmp v L clk = Ok c →
     let outcome rule :=
       ruleOutcome (extensionOf P k joi) rule v {[ "limit" := limit ]} clk in
     (accepts (outcome "min") v ↔ c >= 0)
     ∧ (accepts (outcome "max") v ↔ c <= 0)
     ∧ (accepts (outcome "gt") v ↔ c > 0)
     ∧ (accepts (outcome "lt") v ↔ c < 0)
     ∧ (rejects (outcome "min") ↔ ¬ c >= 0)
     ∧ (rejects (outcome "max") ↔ ¬ c <= 0)
     ∧ (rejects (outcome "gt") ↔ ¬ c > 0)
     ∧ (rejects (outcome "lt") ↔ ¬ c < 0)).
  { intros clk v limit L c HL Hcmp outcome.
    assert (Hrule : ∀ rule chk, In (rule, chk) CHECKS →
              (accepts (outcome rule) v ↔ chk c = true)
              ∧ (rejects (outcome rule) ↔ chk c = false)).
    { intros rule chk Hin. eapply accepts_iff.
      apply (ruleOutcome_decided P k joi cmp rule chk v limit clk L c);
        assumption. }
    destruct (Hrule "min" (fun c => c >=? 0)) as [A1 R1]; [cbn; tauto|].
    destruct (Hrule "max" (fun c => c <=? 0)) as [A2 R2]; [cbn; tauto|].
    destruct (Hrule "gt" (fun c => c >? 0)) as [A3 R3]; [cbn; tauto|].
    destruct (Hrule "lt" (fun c => c <? 0)) as [A4 R4]; [cbn; tauto|].
    cbn beta in *.
    rewrite A1, A2, A3, A4, R1, R2, R3, R4.
    rewrite Z.geb_leb, Z.gtb_ltb.
    rewrite !Z.leb_le, !Z.ltb_lt, !Z.leb_gt, !Z.ltb_ge. lia. }
  split; [exact Hall|].
  intros clk v Hv outcome.
  destruct (Hall clk v v v 0 (resolveLimit_instance P k v clk Hv)
              (compare_self P k cmp v clk Hc Hv))
    as (A1 & A2 & _ & _ & _ & _ & R3 & R4).
  cbn zeta in *. fold outcome in A1, A2, R3, R4.
  repeat split; [apply A1 | apply A2 | apply R3 | apply R4]; lia.
Qed.

(** With a string limit for a date long past, min accepts today's value; a
    value used as its own limit is rejected by gt. *)
Lemma tie_break_witness :
  let v := Sample.date 2021 6 15 in
  let clk := Sample.clockOn 2024 3 15 in
  accepts (ruleOutcome Sample.plainDate "min" v
             {[ "limit" := VString "2020-01-01" ]} clk) v
  ∧ rejects (ruleOutcome Sample.plainDate "gt" v {[ "limit" := v ]} clk).
Proof.
  intros v clk.
  destruct (tie_break IsoText.platform KPlainDate Sample.joi _ eq_refl)
    as [HA HB].
  split.
  - apply (HA clk v (VString "2020-01-01") (Sample.date 2020 1 1) 1
              eq_refl eq_refl).
    lia.
  - apply (HB clk v eq_refl).
Defined.

(** ** Attaching rules and running a schema *)

(** Attaching a generated rule checks the limit with the rule's assertion
    and appends the rule with the limit as it was given. *)
Lemma lookup_comparison_kind P k joi cmp rule chk :
  compare (configOf P k) = Some cmp →
  In (rule, chk) CHECKS →
  rules (extensionOf P k joi) !! rule =
    Some (comparisonRule P (configOf P k) (prefixOf P k) cmp rule chk).
Proof.
  intros Hc Hin. apply lookup_comparison; [exact Hc | exact Hin |].
  apply extra_rules_disjoint.
  cbn in Hin. destruct Hin as [E|[E|[E|[E|[]]]]]; injection E as <- _;
    cbn; tauto.
Qed.

Lemma invoke_step table d nm s actuals :
  invoke table (S d) nm s actuals =
    match table !! nm with
    | None => throw TypeError
    | Some def =>
        rule_method def
          {| this_schema := s;
             addRule := host_addRule table s;
             callMethod := fun n a => invoke table d n s a |}
          actuals
    end.
Proof. reflexivity. Qed.

Lemma attach_comparison P k joi cmp rule chk limit s clk :
  compare (configOf P k) = Some cmp →
  In (rule, chk) CHECKS →
  attach (extensionOf P k joi) rule [limit] s clk =
    if isString limit || check (configOf P k) limit
    then Ok (withRules s [ {| ro_name := rule;
                              ro_args := {[ "limit" := limit ]} |} ])
    else Throw (Error "limit must be a string or Temporal instance").
Proof.
  intros Hc Hin.
  pose proof (lookup_comparison_kind P k joi cmp rule chk Hc Hin) as Hlook.
  unfold attach, callDepth. rewrite invoke_step, Hlook.
  cbn [rule_method comparisonRule addRule argument nth].
  unfold host_addRule. cbn [ro_name]. rewrite Hlook.
  cbn [rule_args comparisonRule find arg_assert arg_name ro_args].
  rewrite property_singleton.
  destruct (isString limit || check (configOf P k) limit); reflexivity.
Qed.

Lemma runRules_step table v r rest :
  runRules table v (r :: rest) =
    match table !! ro_name r ≫= rule_validate with
    | None => runRules table v rest
    | Some f =>
        let* out := f v (ro_args r) in
        match out with
        | RetError e => ret (mkResult (Some v) (Some e))
        | RetValue v' => runRules table v' rest
        end
    end.
Proof. reflexivity. Qed.

Lemma runRules_one ext r v clk :
  runRules (rules ext) v [r] clk =
    match ruleOutcome ext (ro_name r) v (ro_args r) clk with
    | None => Ok (mkResult (Some v) None)
    | Some (Ok (RetValue v')) => Ok (mkResult (Some v') None)
    | Some (Ok (RetError e)) => Ok (mkResult (Some v) (Some e))
    | Some (Throw e) => Throw e
    end.
Proof.
  unfold ruleOutcome. rewrite runRules_step.
  destruct (rules ext !! ro_name r ≫= rule_validate) as [f|]; [|reflexivity].
  cbn. unfold bind. destruct (f v (ro_args r) clk) as [[v'|e]|e]; reflexivity.
Qed.

(** On an instance of the kind, the coerce and validate steps change
    nothing and the attached rules run on the input itself. *)
Lemma schemaValidate_instance P k joi s v clk :
  check (configOf P k) v = true →
  schemaValidate (extensionOf P k joi) s v clk =
    runRules (rules (extensionOf P k joi)) v (sch_rules s) clk.
Proof.
  intros Hv.
  destruct v as [| | | | |o|]; try (destruct k; discriminate).
  unfold schemaValidate, extensionOf at 1 2.
  cbn [coerce validate makeExtension isNullish orb].
  unfold bind. rewrite Hv. cbn. rewrite Hv. reflexivity.
Qed.

Lemma resolveLimit_now P k current clk :
  now (configOf P k) = Some current →
  resolveLimit (configOf P k) (VString "now") clk = current clk.
Proof. intros H. unfold resolveLimit. cbn. rewrite H. reflexivity. Qed.

Lemma now_kinds_compare P k current :
  now (configOf P k) = Some current → is_Some (compare (configOf P k)).
Proof. destruct k; cbn; intros H; try discriminate; eexists; reflexivity. Qed.

(** C3.  On a kind with a current-value resolver, attaching a comparison
    rule with the token "now" stores the token itself, whatever the moment of
    construction; every run of the rule resolves it by calling the resolver
    with the clock of that run; and there are an input and two moments at
    which the same compiled schema compares against different limits, accepts
    the input at one and rejects it at the other. *)
Theorem now_resolved_at_validation (P : Platform) (k : Kind) (joi : JoiRoot)
    (current : M Val) :
  now (configOf P k) = Some current →
  let ext := extensionOf P k joi in
  (∀ rule chk s t0, In (rule, chk) CHECKS →
     attach ext rule [VString "now"] s t0 = Ok (withRules s [nowRule rule]))
  ∧ (∀ clk, resolveLimit (configOf P k) (VString "now") clk = current clk)
  ∧ (∀ cmp rule chk v clk,
     compare (configOf P k) = Some cmp → In (rule, chk) CHECKS →
     ruleOutcome ext rule v (ro_args (nowRule rule)) clk =
       Some (match current clk with
             | Throw e => Throw e
             | Ok L =>
                 match cmp v L clk with
                 | Throw e => Throw e
                 | Ok c => if chk c then Ok (RetValue v)
                           else Ok (RetError (limitError P k rule L))
                 end
             end))
  ∧ (∃ v t1 t2 L1 L2,
     let s := withRules (newSchema ext) [nowRule "min"] in
     current t1 = Ok L1 ∧ current t2 = Ok L2 ∧ L1 ≠ L2
     ∧ schemaValidate ext s v t1 = Ok (mkResult (Some v) None)
     ∧ schemaValidate ext s v t2 =
         Ok (mkResult (Some v) (Some (limitError P k "min" L2)))).
Proof.
  intros Hnow ext.
  destruct (now_kinds_compare P k current Hnow) as [cmp Hc].
  split; [|split; [|split]].
  - intros rule chk s t0 Hin. subst ext.
    rewrite (attach_comparison P k joi cmp rule chk _ s t0 Hc Hin).
    reflexivity.
  - intros clk. apply resolveLimit_now, Hnow.
  - intros cmp' rule chk v clk Hc' Hin. subst ext.
    rewrite (ruleOutcome_comparison P k joi cmp' rule chk v _ clk Hc' Hin).
    unfold nowRule. cbn [ro_args]. rewrite property_singleton.
    rewrite (resolveLimit_now P k current clk Hnow). reflexivity.
  - assert (Hrun : ∀ v t L c,
        check (configOf P k) v = true → current t = Ok L → cmp v L t = Ok c →
        schemaValidate ext (withRules (newSchema ext) [nowRule "min"]) v t =
          Ok (if c >=? 0 then mkResult (Some v) None
              else mkResult (Some v) (Some (limitError P k "min" L)))).
    { intros v t L c Hv HL Hcmp. subst ext.
      rewrite (schemaValidate_instance P k joi _ v t Hv).
      cbn [withRules newSchema sch_rules app]. rewrite runRules_one.
      cbn [nowRule ro_name ro_args].
      rewrite (ruleOutcome_comparison P k joi cmp "min" (fun c => c >=? 0)
                 v _ t Hc); [|cbn; tauto].
      rewrite property_singleton, (resolveLimit_now P k current t Hnow).
      rewrite HL, Hcmp. destruct (c >=? 0); reflexivity. }
    destruct k; cbn in Hnow; try discriminate; injection Hnow as <-;
      cbn in Hc; injection Hc as <-.
    + exists (Sample.date 2024 3 15), (Sample.clockOn 2024 3 15),
             (Sample.clockOn 2024 3 16),
             (Sample.date 2024 3 15), (Sample.date 2024 3 16).
      split; [reflexivity|split; [reflexivity|split; [discriminate|split]]].
      * exact (Hrun (Sample.date 2024 3 15) (Sample.clockOn 2024 3 15)
                 (Sample.date 2024 3 15) 0 eq_refl eq_refl eq_refl).
      * exact (Hrun (Sample.date 2024 3 15) (Sample.clockOn 2024 3 16)
                 (Sample.date 2024 3 16) (-1) eq_refl eq_refl eq_refl).
    + exists (Sample.time 12 0), (Sample.clockAt 12 0), (Sample.clockAt 13 0),
             (Sample.time 12 0), (Sample.time 13 0).
      split; [reflexivity|split; [reflexivity|split; [discriminate|split]]].
      * exact (Hrun (Sample.time 12 0) (Sample.clockAt 12 0)
                 (Sample.time 12 0) 0 eq_refl eq_refl eq_refl).
      * exact (Hrun (Sample.time 12 0) (Sample.clockAt 13 0)
                 (Sample.time 13 0) (-1) eq_refl eq_refl eq_refl).
    + exists (Sample.dateTime 12 0), (Sample.clockAt 12 0),
             (Sample.clockAt 13 0),
             (Sample.dateTime 12 0), (Sample.dateTime 13 0).
      split; [reflexivity|split; [reflexivity|split; [discriminate|split]]].
      * exact (Hrun (Sample.dateTime 12 0) (Sample.clockAt 12 0)
                 (Sample.dateTime 12 0) 0 eq_refl eq_refl eq_refl).
      * exact (Hrun (Sample.dateTime 12 0) (Sample.clockAt 13 0)
                 (Sample.dateTime 13 0) (-1) eq_refl eq_refl eq_refl).
Qed.

(** A schema built with the token one day validates against the date of the
    day of the call. *)
Lemma now_resolved_at_validation_witness :
  attach Sample.plainDate "min" [VString "now"] (newSchema Sample.plainDate)
         (Sample.clockOn 2020 1 1)
    = Ok (withRules (newSchema Sample.plainDate) [nowRule "min"])
  ∧ resolveLimit (plainDateConfig IsoText.platform) (VString "now")
                 (Sample.clockOn 2024 3 16)
    = Ok (Sample.date 2024 3 16).
Proof.
  destruct (now_resolved_at_validation IsoText.platform KPlainDate Sample.joi
              _ eq_refl) as (Ha & Hr & _).
  split.
  - apply (Ha "min" (fun c => c >=? 0)). cbn; tauto.
  - apply Hr.
Defined.

(** ** Aliases *)

Lemma lookup_alias_kind P k joi cmp :
  compare (configOf P k) = Some cmp →
  rules (extensionOf P k joi) !! "gte" = Some (aliasRule "min")
  ∧ rules (extensionOf P k joi) !! "lte" = Some (aliasRule "max").
Proof.
  intros Hc. destruct (lookup_alias P (configOf P k) joi cmp Hc) as [Hg Hl].
  split; [apply Hg | apply Hl]; apply extra_rules_disjoint; cbn; tauto.
Qed.

(** Calling an alias is calling the method of its target on the same
    receiver with the same limit. *)
Lemma attach_alias P k joi cmp target chk limit s clk :
  compare (configOf P k) = Some cmp →
  In (target, chk) CHECKS →
  ∀ alias, rules (extensionOf P k joi) !! alias = Some (aliasRule target) →
  attach (extensionOf P k joi) alias [limit] s clk =
    attach (extensionOf P k joi) target [limit] s clk.
Proof.
  intros Hc Hin alias Ha.
  pose proof (lookup_comparison_kind P k joi cmp target chk Hc Hin) as Ht.
  unfold attach, callDepth.
  rewrite (invoke_step _ _ alias), Ha.
  cbn [rule_method aliasRule callMethod argument nth].
  rewrite !invoke_step, Ht. reflexivity.
Qed.

Lemma messages_comparison P k joi cmp rule chk :
  compare (configOf P k) = Some cmp →
  In (rule, chk) CHECKS →
  messages (extensionOf P k joi) !! (prefixOf P k +:+ "." +:+ rule) =
    assign DEFAULT_COMPARE (compareMessages (configOf P k)) !! rule.
Proof.
  intros Hc Hin. cbn in Hin.
  destruct Hin as [E|[E|[E|[E|[]]]]]; injection E as <- _;
    destruct k; try discriminate Hc; reflexivity.
Qed.

Lemma messages_no_alias P k joi :
  messages (extensionOf P k joi) !! (prefixOf P k +:+ ".gte") = None
  ∧ messages (extensionOf P k joi) !! (prefixOf P k +:+ ".lte") = None.
Proof. destruct k; split; reflexivity. Qed.

(** C4.  On a kind with a comparator, [gte(L)] is [min(L)] and [lte(L)] is
    [max(L)]: the call returns what the call of the target returns (the same
    schema, holding a rule named after the target, or the same configuration
    error), so every later validation gives the same result; the aliases
    have no validate and no message code of their own, and a failure of the
    attached rule carries the target's code [temporal.<name>.min] (or
    [.max]) and the target's message. *)
Theorem alias_equivalence (P : Platform) (k : Kind) (joi : JoiRoot)
    (cmp : Val → Val → M Z) :
  compare (configOf P k) = Some cmp →
  let ext := extensionOf P k joi in
  let ruleFor target L :=
    {| ro_name := target; ro_args := {[ "limit" := L ]} |} in
  (∀ L s clk,
     attach ext "gte" [L] s clk = attach ext "min" [L] s clk
     ∧ attach ext "lte" [L] s clk = attach ext "max" [L] s clk)
  ∧ (∀ L s clk s',
     (attach ext "gte" [L] s clk = Ok s' → s' = withRules s [ruleFor "min" L])
     ∧ (attach ext "lte" [L] s clk = Ok s' → s' = withRules s [ruleFor "max" L]))
  ∧ (∀ L s clk sAlias sTarget v clk',
     (attach ext "gte" [L] s clk = Ok sAlias →
      attach ext "min" [L] s clk = Ok sTarget →
      schemaValidate ext sAlias v clk' = schemaValidate ext sTarget v clk')
     ∧ (attach ext "lte" [L] s clk = Ok sAlias →
      attach ext "max" [L] s clk = Ok sTarget →
      schemaValidate ext sAlias v clk' = schemaValidate ext sTarget v clk'))
  ∧ (∀ v args clk,
     ruleOutcome ext "gte" v args clk = None
     ∧ ruleOutcome ext "lte" v args clk = None)
  ∧ (messages ext !! (prefixOf P k +:+ ".gte") = None
     ∧ messages ext !! (prefixOf P k +:+ ".lte") = None)
  ∧ (∀ target chk v L clk e,
     In (target, chk) CHECKS →
     ruleOutcome ext target v (ro_args (ruleFor target L)) clk
       = Some (Ok (RetError e)) →
     code e = prefixOf P k +:+ "." +:+ target
     ∧ messages ext !! code e =
         assign DEFAULT_COMPARE (compareMessages (configOf P k)) !! target).
Proof.
  intros Hc ext ruleFor.
  destruct (lookup_alias_kind P k joi cmp Hc) as [Hg Hl].
  assert (Hsame : ∀ L s clk,
     attach ext "gte" [L] s clk = attach ext "min" [L] s clk
     ∧ attach ext "lte" [L] s clk = attach ext "max" [L] s clk).
  { intros L s clk. split.
    - apply (attach_alias P k joi cmp "min" (fun c => c >=? 0));
        [exact Hc | cbn; tauto | exact Hg].
    - apply (attach_alias P k joi cmp "max" (fun c => c <=? 0));
        [exact Hc | cbn; tauto | exact Hl]. }
  split; [exact Hsame|]. split; [|split; [|split; [|split]]].
  - intros L s clk s'. destruct (Hsame L s clk) as [-> ->]. subst ext.
    rewrite (attach_comparison P k joi cmp "min" (fun c => c >=? 0) L s clk Hc)
      by (cbn; tauto).
    rewrite (attach_comparison P k joi cmp "max" (fun c => c <=? 0) L s clk Hc)
      by (cbn; tauto).
    destruct (isString L || check (configOf P k) L);
      split; intros H; try discriminate; injection H as <-; reflexivity.
  - intros L s clk sAlias sTarget v clk'. destruct (Hsame L s clk) as [-> ->].
    split; intros H1 H2; rewrite H1 in H2; injection H2 as <-; reflexivity.
  - intros v args clk. unfold ruleOutcome. subst ext. rewrite Hg, Hl.
    split; reflexivity.
  - apply messages_no_alias.
  - intros target chk v L clk e Hin Hout. subst ext.
    rewrite (ruleOutcome_comparison P k joi cmp target chk v _ clk Hc Hin)
      in Hout.
    assert (He : e = limitError P k target
                       match resolveLimit (configOf P k)
                               (property "limit" (ro_args (ruleFor target L)))
                               clk with
                       | Ok L' => L'
                       | Throw _ => VUndefined
                       end).
    { destruct (resolveLimit _ _ clk) as [L'|]; [|discriminate].
      destruct (cmp v L' clk) as [c|]; [|discriminate].
      destruct (chk c); [discriminate|]. congruence. }
    rewrite He. cbn [code limitError helpers_error]. split; [reflexivity|].
    apply (messages_comparison P k joi cmp target chk Hc Hin).
Qed.

(** On the calendar-date kind: [gte] with a string limit yields the schema
    with a [min] rule. *)
Lemma alias_equivalence_witness :
  attach Sample.plainDate "gte" [VString "2020-01-01"]
         (newSchema Sample.plainDate) (Sample.clockOn 2024 3 15)
  = Ok (withRules (newSchema Sample.plainDate)
          [ {| ro_name := "min";
               ro_args := {[ "limit" := VString "2020-01-01" ]} |} ]).
Proof.
  destruct (alias_equivalence IsoText.platform KPlainDate Sample.joi _ eq_refl)
    as (Hsame & _).
  transitivity (attach Sample.plainDate "min" [VString "2020-01-01"]
                  (newSchema Sample.plainDate) (Sample.clockOn 2024 3 15)).
  - exact (proj1 (Hsame (VString "2020-01-01") (newSchema Sample.plainDate)
                    (Sample.clockOn 2024 3 15))).
  - reflexivity.
Defined.

(** ** String limits *)

(** A string limit other than a resolved "now" is handed to [parse] when
    the rule runs. *)
Lemma resolveLimit_text config text clk :
  isNowToken (VString text) = false ∨ now config = None →
  resolveLimit config (VString text) clk = parse config text clk.
Proof.
  intros [H|H]; unfold resolveLimit; rewrite H; [reflexivity|].
  destruct (isNowToken (VString text)); reflexivity.
Qed.

(** C6, as the code has it.  When a comparison rule is attached, the
    argument assertion accepts every string limit, whether or not the kind's
    parse can read it (and every instance of the kind), and refuses, as a
    configuration error, only a limit that is neither.  A string limit that
    is not a resolved "now" is parsed when the rule runs, at validate()
    time: the rule's outcome then is what follows from that parse. *)
Theorem limit_checked_at_validation (P : Platform) (k : Kind) (joi : JoiRoot)
    (cmp : Val → Val → M Z) :
  compare (configOf P k) = Some cmp →
  let ext := extensionOf P k joi in
  let ruleFor rule L := {| ro_name := rule; ro_args := {[ "limit" := L ]} |} in
  (∀ rule chk text s clk, In (rule, chk) CHECKS →
     attach ext rule [VString text] s clk
       = Ok (withRules s [ruleFor rule (VString text)]))
  ∧ (∀ text s clk,
     attach ext "gte" [VString text] s clk
       = Ok (withRules s [ruleFor "min" (VString text)])
     ∧ attach ext "lte" [VString text] s clk
       = Ok (withRules s [ruleFor "max" (VString text)]))
  ∧ (∀ rule chk limit s clk, In (rule, chk) CHECKS →
     check (configOf P k) limit = true →
     attach ext rule [limit] s clk = Ok (withRules s [ruleFor rule limit]))
  ∧ (∀ rule chk limit s clk, In (rule, chk) CHECKS →
     isString limit = false → check (configOf P k) limit = false →
     attach ext rule [limit] s clk
       = Throw (Error "limit must be a string or Temporal instance"))
  ∧ (∀ rule chk text v clk, In (rule, chk) CHECKS →
     isNowToken (VString text) = false ∨ now (configOf P k) = None →
     resolveLimit (configOf P k) (VString text) clk
       = parse (configOf P k) text clk
     ∧ ruleOutcome ext rule v (ro_args (ruleFor rule (VString text))) clk =
         Some (match parse (configOf P k) text clk with
               | Throw e => Throw e
               | Ok L =>
                   match cmp v L clk with
                   | Throw e => Throw e
                   | Ok c => if chk c then Ok (RetValue v)
                             else Ok (RetError (limitError P k rule L))
                   end
               end)).
Proof.
  intros Hc ext ruleFor.
  assert (Hattach : ∀ rule chk limit s clk, In (rule, chk) CHECKS →
            isString limit || check (configOf P k) limit = true →
            attach ext rule [limit] s clk
              = Ok (withRules s [ruleFor rule limit])).
  { intros rule chk limit s clk Hin Hok. subst ext.
    rewrite (attach_comparison P k joi cmp rule chk limit s clk Hc Hin), Hok.
    reflexivity. }
  destruct (lookup_alias_kind P k joi cmp Hc) as [Hg Hl].
  split; [|split; [|split; [|split]]].
  - intros rule chk text s clk Hin. apply (Hattach rule chk); [exact Hin|].
    reflexivity.
  - intros text s clk. split.
    + subst ext.
      rewrite (attach_alias P k joi cmp "min" (fun c => c >=? 0) _ s clk Hc)
        with (alias := "gte"); [|cbn; tauto|exact Hg].
      apply (Hattach "min" (fun c => c >=? 0)); [cbn; tauto | reflexivity].
    + subst ext.
      rewrite (attach_alias P k joi cmp "max" (fun c => c <=? 0) _ s clk Hc)
        with (alias := "lte"); [|cbn; tauto|exact Hl].
      apply (Hattach "max" (fun c => c <=? 0)); [cbn; tauto | reflexivity].
  - intros rule chk limit s clk Hin Hv. apply (Hattach rule chk); [exact Hin|].
    rewrite Hv. apply orb_true_r.
  - intros rule chk limit s clk Hin Hs Hv. subst ext.
    rewrite (attach_comparison P k joi cmp rule chk limit s clk Hc Hin).
    rewrite Hs, Hv. reflexivity.
  - intros rule chk text v clk Hin Hnow.
    pose proof (resolveLimit_text (configOf P k) text clk Hnow) as Hres.
    split; [exact Hres|]. subst ext.
    rewrite (ruleOutcome_comparison P k joi cmp rule chk v _ clk Hc Hin).
    subst ruleFor. cbn [ro_args]. rewrite property_singleton, Hres.
    reflexivity.
Qed.

(** On the instant kind, which has no current-value resolver, the token
    "now" is attached without complaint, and a number is refused. *)
Lemma limit_checked_at_validation_witness :
  let s := newSchema Sample.instant in
  let clk := Sample.clockOn 2024 3 15 in
  attach Sample.instant "min" [VString "now"] s clk
    = Ok (withRules s [nowRule "min"])
  ∧ attach Sample.instant "min" [VNumber 7] s clk
    = Throw (Error "limit must be a string or Temporal instance").
Proof.
  intros s clk.
  destruct (limit_checked_at_validation IsoText.platform KInstant Sample.joi
              _ eq_refl) as (Hs & _ & _ & Hn & _).
  split.
  - apply (Hs "min" (fun c => c >=? 0)). cbn; tauto.
  - apply (Hn "min" (fun c => c >=? 0)); [cbn; tauto | reflexivity..].
Defined.

(** C6, as stated, fails: the instant kind cannot parse "now" and has no
    resolver for it, yet attaching [min("now")] succeeds; the string is
    first parsed when a value is validated, and the parse exception leaves
    the call. *)
Lemma unparsable_limit_attached :
  let s := newSchema Sample.instant in
  let clk := Sample.clockOn 2024 3 15 in
  now (instantConfig IsoText.platform) = None
  ∧ parse (instantConfig IsoText.platform) "now" clk = Throw RangeError
  ∧ attach Sample.instant "min" [VString "now"] s clk
    = Ok (withRules s [nowRule "min"])
  ∧ schemaValidate Sample.instant (withRules s [nowRule "min"])
      (VString "2021-01-15T14:30:00Z") clk
    = Throw RangeError.
Proof. intros s clk. repeat split; reflexivity. Qed.

(** ** Durations and the reference date *)

Lemma CompareDurations_fixed_units a b d1 d2 :
  Temporal.hasCalendarUnits a = false →
  Temporal.hasCalendarUnits b = false →
  Temporal.CompareDurations a b d1 = Temporal.CompareDurations a b d2.
Proof. intros Ha Hb. unfold Temporal.CompareDurations. rewrite Ha, Hb. reflexivity. Qed.

(** With no years and no months, the date part of a duration is its days
    plus seven days per week, whatever the (valid) reference date: the
    reference date can only decide whether the computation stays in range. *)
Lemma DateDurationDays_weeks d relativeTo n :
  Temporal.years d = 0 → Temporal.months d = 0 →
  Temporal.IsValidISODate relativeTo = true →
  Temporal.DateDurationDays d relativeTo = Ok n →
  n = Temporal.days d + 7 * Temporal.weeks d.
Proof.
  intros Hy Hm Hvalid. unfold Temporal.DateDurationDays.
  rewrite Hy, Hm. cbn [Z.eqb andb].
  destruct (Temporal.weeks d =? 0) eqn:Hw.
  - apply Z.eqb_eq in Hw. rewrite Hw. intros [= <-]. lia.
  - unfold Temporal.IsValidISODate in Hvalid.
    apply andb_true_iff in Hvalid as [Hvalid Hd2].
    apply andb_true_iff in Hvalid as [Hvalid Hd1].
    apply andb_true_iff in Hvalid as [Hm1 Hm2].
    apply Z.leb_le in Hm1, Hm2, Hd1, Hd2.
    unfold Temporal.BalanceISOYearMonth. cbn [fst snd].
    rewrite !Z.add_0_r.
    rewrite (Z.div_small (Temporal.month relativeTo - 1) 12) by lia.
    rewrite (Z.mod_small (Temporal.month relativeTo - 1) 12) by lia.
    rewrite Z.add_0_r.
    replace (Temporal.month relativeTo - 1 + 1) with (Temporal.month relativeTo)
      by lia.
    unfold Temporal.ConstrainDay.
    rewrite (Z.min_l _ _ Hd2), (Z.max_r _ _ Hd1).
    destruct (Temporal.EpochDaysWithinLimits _); [|discriminate].
    intros [= <-]. unfold Temporal.ISODateToEpochDays. cbv zeta. ring.
Qed.

Lemma CompareDurations_no_years_months a b d1 d2 r1 r2 :
  Temporal.years a = 0 → Temporal.months a = 0 →
  Temporal.years b = 0 → Temporal.months b = 0 →
  Temporal.IsValidISODate d1 = true → Temporal.IsValidISODate d2 = true →
  Temporal.CompareDurations a b d1 = Ok r1 →
  Temporal.CompareDurations a b d2 = Ok r2 →
  r1 = r2.
Proof.
  intros Hya Hma Hyb Hmb Hv1 Hv2. unfold Temporal.CompareDurations.
  destruct (Temporal.sameFields a b); [congruence|].
  destruct (Temporal.hasCalendarUnits a || Temporal.hasCalendarUnits b);
    [|congruence].
  destruct (Temporal.DateDurationDays a d1) as [m1|] eqn:Ha1; [|discriminate].
  destruct (Temporal.DateDurationDays a d2) as [m2|] eqn:Ha2; [|discriminate].
  destruct (Temporal.DateDurationDays b d1) as [n1|] eqn:Hb1; [|discriminate].
  destruct (Temporal.DateDurationDays b d2) as [n2|] eqn:Hb2; [|discriminate].
  rewrite (DateDurationDays_weeks a d1 m1 Hya Hma Hv1 Ha1).
  rewrite (DateDurationDays_weeks a d2 m2 Hya Hma Hv2 Ha2).
  rewrite (DateDurationDays_weeks b d1 n1 Hyb Hmb Hv1 Hb1).
  rewrite (DateDurationDays_weeks b d2 n2 Hyb Hmb Hv2 Hb2).
  cbn [andThen]. congruence.
Qed.

(** The duration kind has no resolver and its parser reads no clock: the
    resolved limit does not depend on the moment. *)
Lemma resolveLimit_duration_clock P limit t1 t2 :
  resolveLimit (durationConfig P) limit t1
  = resolveLimit (durationConfig P) limit t2.
Proof.
  unfold resolveLimit. cbn [now durationConfig].
  destruct (isNowToken limit); destruct limit; reflexivity.
Qed.

(** C7.  The comparator of the duration kind anchors every comparison to
    the date on the clock at the moment of that call.  When the value and
    the resolved limit carry no years, months or weeks, the comparison, the
    outcome of every min/max/gt/lt rule and the result of validating against
    such a rule are the same at any two moments.  With calendar units the
    date of the call matters: one month against thirty days compares
    differently in January and in February.  Weeks alone do not bring the
    date in: with no years and no months, two comparisons that both return,
    made on any two dates, return the same. *)
Theorem duration_comparison_clock (P : Platform) (joi : JoiRoot)
    (cmp : Val → Val → M Z) :
  compare (durationConfig P) = Some cmp →
  let ext := extensionOf P KDuration joi in
  let dur d := VTemporal (Duration d) in
  (∀ a b clk,
     cmp (dur a) (dur b) clk = Temporal.CompareDurations a b (clk_date clk))
  ∧ (∀ a b t1 t2,
     Temporal.hasCalendarUnits a = false →
     Temporal.hasCalendarUnits b = false →
     cmp (dur a) (dur b) t1 = cmp (dur a) (dur b) t2)
  ∧ (∀ rule chk a limit b t1 t2,
     In (rule, chk) CHECKS →
     resolveLimit (durationConfig P) limit t1 = Ok (dur b) →
     Temporal.hasCalendarUnits a = false →
     Temporal.hasCalendarUnits b = false →
     ruleOutcome ext rule (dur a) {[ "limit" := limit ]} t1
     = ruleOutcome ext rule (dur a) {[ "limit" := limit ]} t2
     ∧ schemaValidate ext
         (withRules (newSchema ext)
            [ {| ro_name := rule; ro_args := {[ "limit" := limit ]} |} ])
         (dur a) t1
       = schemaValidate ext
         (withRules (newSchema ext)
            [ {| ro_name := rule; ro_args := {[ "limit" := limit ]} |} ])
         (dur a) t2)
  ∧ (∃ a b t1 t2,
     cmp (dur a) (dur b) t1 = Ok 1 ∧ cmp (dur a) (dur b) t2 = Ok (-1))
  ∧ (∀ a b t1 t2 r1 r2,
     Temporal.years a = 0 → Temporal.months a = 0 →
     Temporal.years b = 0 → Temporal.months b = 0 →
     Temporal.IsValidISODate (clk_date t1) = true →
     Temporal.IsValidISODate (clk_date t2) = true →
     cmp (dur a) (dur b) t1 = Ok r1 → cmp (dur a) (dur b) t2 = Ok r2 →
     r1 = r2).
Proof.
  intros Hc ext dur. cbn in Hc. injection Hc as <-.
  assert (Hfresh : ∀ a b clk,
     (λ x y : Val, let* today := Now_plainDateISO in
                   Duration_compare P x y today) (dur a) (dur b) clk
     = Temporal.CompareDurations a b (clk_date clk)) by reflexivity.
  assert (Hfixed : ∀ a b t1 t2,
     Temporal.hasCalendarUnits a = false →
     Temporal.hasCalendarUnits b = false →
     (λ x y : Val, let* today := Now_plainDateISO in
                   Duration_compare P x y today) (dur a) (dur b) t1
     = (λ x y : Val, let* today := Now_plainDateISO in
                     Duration_compare P x y today) (dur a) (dur b) t2).
  { intros a b t1 t2 Ha Hb. rewrite !Hfresh.
    apply CompareDurations_fixed_units; assumption. }
  split; [exact Hfresh|]. split; [exact Hfixed|]. split; [|split].
  - intros rule chk a limit b t1 t2 Hin HL Ha Hb.
    assert (Hout : ruleOutcome ext rule (dur a) {[ "limit" := limit ]} t1
                 = ruleOutcome ext rule (dur a) {[ "limit" := limit ]} t2).
    { subst ext.
      rewrite !(ruleOutcome_comparison P KDuration joi _ rule chk (dur a) _ _
                  eq_refl Hin).
      rewrite property_singleton.
      change (configOf P KDuration) with (durationConfig P).
      rewrite <- (resolveLimit_duration_clock P limit t1 t2), HL.
      rewrite (Hfixed a b t1 t2 Ha Hb). reflexivity. }
    split; [exact Hout|]. subst ext.
    rewrite !(schemaValidate_instance P KDuration joi _ (dur a)) by reflexivity.
    cbn [withRules newSchema sch_rules app]. rewrite !runRules_one.
    cbn [ro_name ro_args]. rewrite Hout. reflexivity.
  - exists Sample.oneMonth, Sample.thirtyDays,
           (Sample.clockOn 2024 1 15), (Sample.clockOn 2024 2 15).
    split; reflexivity.
  - intros a b t1 t2 r1 r2 Hya Hma Hyb Hmb Hv1 Hv2. rewrite !Hfresh.
    apply CompareDurations_no_years_months; assumption.
Qed.

(** Two days against a limit of fifty hours: [max] rejects it on any date,
    in January as in February. *)
Lemma duration_comparison_clock_witness :
  let v := VTemporal (Duration Sample.twoDays) in
  let limit := VTemporal (Duration Sample.fiftyHours) in
  ruleOutcome Sample.duration "max" v {[ "limit" := limit ]}
              (Sample.clockOn 2024 1 15)
  = ruleOutcome Sample.duration "max" v {[ "limit" := limit ]}
                (Sample.clockOn 2024 2 15).
Proof.
  intros v limit.
  destruct (duration_comparison_clock IsoText.platform Sample.joi _ eq_refl)
    as (_ & _ & Hrule & _).
  exact (proj1 (Hrule "max" (fun c => c <=? 0) Sample.twoDays limit
                  Sample.fiftyHours (Sample.clockOn 2024 1 15)
                  (Sample.clockOn 2024 2 15)
                  (or_intror (or_introl eq_refl))
                  eq_refl eq_refl eq_refl)).
Defined.

(** ** The error of a failed comparison *)

Lemma kindOf_wrap k p : kindOf (wrap k p) = k.
Proof. destruct k; reflexivity. Qed.

Lemma check_kind P k o :
  check (configOf P k) (VTemporal o) = true ↔ kindOf o = k.
Proof.
  split.
  - destruct k, o; cbn; intros H; try discriminate; reflexivity.
  - intros <-. destruct o; reflexivity.
Qed.

Lemma check_instance P k v :
  check (configOf P k) v = true → ∃ o, v = VTemporal o ∧ kindOf o = k.
Proof.
  intros H. destruct v as [| | | | |o|]; try (destruct k; discriminate).
  exists o. split; [reflexivity | apply (check_kind P), H].
Qed.

Lemma parse_checked P k text clk v :
  parse (configOf P k) text clk = Ok v → check (configOf P k) v = true.
Proof.
  intros H.
  assert (Hfrom : from P k text clk = Ok v) by (destruct k; exact H).
  unfold from, liftExc, andThen in Hfrom.
  destruct (fromText P k text) as [p|]; [|discriminate].
  injection Hfrom as <-. apply check_kind, kindOf_wrap.
Qed.

Lemma now_yields_instance P k current clk L :
  now (configOf P k) = Some current → current clk = Ok L →
  ∃ o, L = VTemporal o.
Proof.
  intros Hn HL.
  destruct k; cbn in Hn; try discriminate; injection Hn as <-;
    cbn in HL; injection HL as <-; eexists; reflexivity.
Qed.

(** The limit a rule holds is a string or an instance of the kind (the
    argument assertion lets nothing else through); such a limit never
    resolves to anything but a library value of the kind: the value the
    resolver returns for "now", the value [parse] returns for any other
    string, the instance itself. *)
Lemma resolveLimit_library_value P k limit clk L :
  isString limit || check (configOf P k) limit = true →
  resolveLimit (configOf P k) limit clk = Ok L →
  ∃ o, L = VTemporal o ∧ kindOf o = k.
Proof.
  intros Hlim HL. apply (check_instance P).
  unfold resolveLimit in HL.
  destruct (if isNowToken limit then now (configOf P k) else None)
    as [current|] eqn:Hnow.
  - destruct (isNowToken limit); [|discriminate].
    destruct k; cbn in Hnow; try discriminate; injection Hnow as <-;
      cbn in HL; injection HL as <-; reflexivity.
  - destruct limit as [| | | |text| |];
      try (injection HL as <-; cbn [isString orb] in Hlim; exact Hlim).
    apply (parse_checked P k text clk L HL).
Qed.

(** C8.  When a comparison rule fails, the error report has the code
    [temporal.<name>.<rule>] and its context binds [limit] to the text
    [String(resolved)] of the resolved limit, which for a library value is
    its canonical text [toString()].  For the token "now" on a kind with a
    resolver the resolved limit is the value the resolver returned at that
    call, so the context holds the text of that value, not the token.  The
    code is the key of the rule's message template.  For every limit a rule
    can hold, a string or an instance of the kind, the resolved limit is a
    library value of the kind and the context holds exactly its canonical
    text: for a string that is not a resolved "now", the text of the value
    [parse] returned for it, not the string as it was written; for an
    instance, the text of that instance. *)
Theorem failure_reports_resolved_limit (P : Platform) (k : Kind)
    (joi : JoiRoot) (cmp : Val → Val → M Z) (rule : string) (chk : Z → bool)
    (v : Val) (args : gmap string Val) (clk : Clock) (e : ErrorReport) :
  compare (configOf P k) = Some cmp →
  In (rule, chk) CHECKS →
  ruleOutcome (extensionOf P k joi) rule v args clk = Some (Ok (RetError e)) →
  ∃ L,
    resolveLimit (configOf P k) (property "limit" args) clk = Ok L
    ∧ code e = prefixOf P k +:+ "." +:+ rule
    ∧ local e = {[ "limit" := VString (js_String P L) ]}
    ∧ (∀ o, L = VTemporal o →
         local e !! "limit" = Some (VString (toString P o)))
    ∧ (∀ current,
         isNowToken (property "limit" args) = true →
         now (configOf P k) = Some current →
         current clk = Ok L
         ∧ ∃ o, L = VTemporal o
                ∧ local e !! "limit" = Some (VString (toString P o)))
    ∧ messages (extensionOf P k joi) !! code e =
        assign DEFAULT_COMPARE (compareMessages (configOf P k)) !! rule
    ∧ (isString (property "limit" args)
       || check (configOf P k) (property "limit" args) = true →
       ∃ o, L = VTemporal o ∧ kindOf o = k
            ∧ local e = {[ "limit" := VString (toString P o) ]}
            ∧ (∀ text,
                 property "limit" args = VString text →
                 isNowToken (VString text) = false
                 ∨ now (configOf P k) = None →
                 parse (configOf P k) text clk = Ok (VTemporal o))
            ∧ (isString (property "limit" args) = false →
                 property "limit" args = VTemporal o)).
Proof.
  intros Hc Hin Hout.
  rewrite (ruleOutcome_comparison P k joi cmp rule chk v args clk Hc Hin)
    in Hout.
  destruct (resolveLimit (configOf P k) (property "limit" args) clk)
    as [L|] eqn:HL; [|discriminate].
  destruct (cmp v L clk) as [c|]; [|discriminate].
  destruct (chk c); [discriminate|]. injection Hout as <-.
  exists L. cbn [code local limitError helpers_error].
  assert (Htext : ∀ o, L = VTemporal o →
            ({[ "limit" := VString (js_String P L) ]} : gmap string Val)
              !! "limit" = Some (VString (toString P o))).
  { intros o ->. rewrite lookup_singleton_eq. reflexivity. }
  split; [reflexivity|]. split; [reflexivity|]. split; [reflexivity|].
  split; [exact Htext|]. split; [|split].
  - intros current Htok Hnow.
    assert (Hcur : current clk = Ok L).
    { unfold resolveLimit in HL. rewrite Htok, Hnow in HL. exact HL. }
    split; [exact Hcur|].
    destruct (now_yields_instance P k current clk L Hnow Hcur) as [o Ho].
    exists o. split; [exact Ho | apply Htext, Ho].
  - apply (messages_comparison P k joi cmp rule chk Hc Hin).
  - intros Hlim.
    destruct (resolveLimit_library_value P k _ clk L Hlim HL) as (o & -> & Hk).
    exists o. split; [reflexivity|]. split; [exact Hk|].
    split; [reflexivity|]. split.
    + intros text Htxt Hnot. rewrite Htxt in HL.
      rewrite (resolveLimit_text (configOf P k) text clk Hnot) in HL.
      exact HL.
    + intros Hns. rewrite Hns in Hlim. cbn [orb] in Hlim.
      rewrite (resolveLimit_instance P k _ clk Hlim) in HL.
      injection HL as ->. reflexivity.
Qed.

(** Two failures.  Yesterday's date against [min("now")]: the failure
    carries the code [temporal.plainDate.min] and the text of today's date,
    not the token.  Eight o'clock against [min("09:00")]: the failure
    carries the code [temporal.plainTime.min] and the canonical text
    "09:00:00" of the parsed limit, not the string "09:00" as written. *)
Lemma failure_reports_resolved_limit_witness :
  let clk := Sample.clockOn 2024 3 15 in
  let nowArgs : gmap string Val := {[ "limit" := VString "now" ]} in
  let dateError := helpers_error "temporal.plainDate.min"
                     {[ "limit" := VString "2024-03-15" ]} in
  let plainTime := extensionOf IsoText.platform KPlainTime Sample.joi in
  let textArgs : gmap string Val := {[ "limit" := VString "09:00" ]} in
  let nine := PlainTime (Temporal.mkTime 9 0 0 0 0 0) in
  let timeError := helpers_error "temporal.plainTime.min"
                     {[ "limit" := VString "09:00:00" ]} in
  (ruleOutcome Sample.plainDate "min" (Sample.date 2024 3 14) nowArgs clk
     = Some (Ok (RetError dateError))
   ∧ ∃ L, resolveLimit (plainDateConfig IsoText.platform)
                       (property "limit" nowArgs) clk = Ok L
          ∧ code dateError = "temporal.plainDate.min"
          ∧ local dateError !! "limit"
            = Some (VString (IsoText.show (PlainDate
                                (Temporal.mkISODate 2024 3 15)))))
  ∧ (ruleOutcome plainTime "min" (Sample.time 8 0) textArgs clk
       = Some (Ok (RetError timeError))
     ∧ isString (property "limit" textArgs)
       || check (configOf IsoText.platform KPlainTime)
                (property "limit" textArgs) = true
     ∧ parse (configOf IsoText.platform KPlainTime) "09:00" clk
       = Ok (VTemporal nine)
     ∧ local timeError = {[ "limit" := VString (IsoText.show nine) ]}
     ∧ IsoText.show nine = "09:00:00").
Proof.
  intros clk nowArgs dateError plainTime textArgs nine timeError.
  split.
  - assert (Hout : ruleOutcome Sample.plainDate "min" (Sample.date 2024 3 14)
                     nowArgs clk = Some (Ok (RetError dateError)))
      by reflexivity.
    split; [exact Hout|].
    destruct (failure_reports_resolved_limit IsoText.platform KPlainDate
                Sample.joi _ "min" (fun c => c >=? 0) (Sample.date 2024 3 14)
                nowArgs clk dateError eq_refl (or_introl eq_refl) Hout)
      as (L & HL & Hcode & _ & _ & Hnow & _).
    exists L. split; [exact HL|]. split; [exact Hcode|].
    destruct (Hnow _ eq_refl eq_refl) as [Hcur _].
    reflexivity.
  - assert (Hout : ruleOutcome plainTime "min" (Sample.time 8 0) textArgs clk
                   = Some (Ok (RetError timeError)))
      by (vm_compute; reflexivity).
    split; [exact Hout|]. split; [reflexivity|].
    destruct (failure_reports_resolved_limit IsoText.platform KPlainTime
                Sample.joi _ "min" (fun c => c >=? 0) (Sample.time 8 0)
                textArgs clk timeError eq_refl (or_introl eq_refl) Hout)
      as (L & _ & _ & _ & _ & _ & _ & Hlib).
    destruct (Hlib eq_refl) as (o & _ & _ & Hlocal & Hparse & _).
    pose proof (Hparse "09:00" eq_refl (or_introl eq_refl)) as Hp.
    assert (Ho : o = nine).
    { assert (Hc : parse (configOf IsoText.platform KPlainTime) "09:00" clk
                   = Ok (VTemporal nine)) by (vm_compute; reflexivity).
      rewrite Hc in Hp. injection Hp as <-. reflexivity. }
    subst o. split; [exact Hp|]. split; [exact Hlocal|].
    vm_compute. reflexivity.
Defined.

(** ** Totality of the two steps, and the startup check *)

(** What holds of the two steps themselves.  For every descriptor and every
    input, the coerce step and the validate step return a result object and
    never throw: coerce returns [{value}] or [{errors}] with the base error
    (an exception of [parse] is caught), validate returns the value alone or
    the value with the base error; hence validating any input against a
    schema with no rule attached returns a result.  Loading the module with
    no global [Temporal] throws and yields no extension; with it, the eight
    extension factories are exported. *)
Theorem coerce_validate_total (P : Platform) (config : TypeConfig)
    (joi : JoiRoot) :
  let ext := makeExtension P config joi in
  let baseError :=
    helpers_error (("temporal." +:+ name config) +:+ ".base") ∅ in
  (∀ v clk, ∃ r,
     coerce ext v clk = Ok r
     ∧ ((∃ v', r = mkResult (Some v') None)
        ∨ r = mkResult None (Some baseError)))
  ∧ (∀ v clk,
     validate ext v clk = Ok (mkResult (Some v) None)
     ∨ validate ext v clk = Ok (mkResult (Some v) (Some baseError)))
  ∧ (∀ v clk, ∃ r, schemaValidate ext (newSchema ext) v clk = Ok r)
  ∧ (∃ message, loadModule P false = Throw (Error message))
  ∧ loadModule P true = Ok (extensions P)
  ∧ length (extensions P) = 8%nat.
Proof.
  intros ext baseError.
  assert (Hco : ∀ v clk, ∃ r,
     coerce ext v clk = Ok r
     ∧ ((∃ v', r = mkResult (Some v') None)
        ∨ r = mkResult None (Some baseError))).
  { intros v clk.
    destruct (isNullish v || check config v) eqn:Hpass.
    - exists (mkResult (Some v) None). split; [|left; eauto].
      apply coerce_passthrough, Hpass.
    - destruct (isString v) eqn:Hs.
      + destruct v; try discriminate Hs.
        assert (Hc : check config (VString s) = false).
        { apply orb_false_iff in Hpass. apply Hpass. }
        pose proof (coerce_string P config joi s clk Hc) as H.
        destruct (parse config s clk) as [parsed|];
          eexists; (split; [exact H|]); [left; eauto | right; reflexivity].
      + exists (mkResult None (Some baseError)). split; [|right; reflexivity].
        apply coerce_not_string; assumption. }
  assert (Hva : ∀ v clk,
     validate ext v clk = Ok (mkResult (Some v) None)
     ∨ validate ext v clk = Ok (mkResult (Some v) (Some baseError))).
  { intros v clk. subst ext. cbn.
    destruct (check config v); [left | right]; reflexivity. }
  split; [exact Hco|]. split; [exact Hva|].
  split; [|split; [|split]].
  - intros v clk. unfold schemaValidate.
    destruct v; try (eexists; reflexivity);
      match goal with
      | |- ∃ r, (let* coerced := coerce ext ?w in _) clk = Ok r =>
          unfold bind; destruct (Hco w clk) as (r & -> & [[v' ->]| ->]);
          cbn [res_errors res_value from_option id];
          [destruct (Hva v' clk) as [-> | ->] |]; eexists; reflexivity
      end.
  - eexists. reflexivity.
  - reflexivity.
  - reflexivity.
Qed.

(** A limit that cannot be parsed has the same effect.  With [Temporal]
    present and a schema built without complaint as [max("2021-02-31")],
    validating the valid date string "2021-03-01" does not return a result:
    the rule's validate parses its limit outside any try/catch and the
    RangeError of that parse leaves the validate() call. *)
Lemma rule_validate_throws :
  let clk := Sample.clockOn 2024 3 15 in
  let maxRule := {| ro_name := "max";
                    ro_args := {[ "limit" := VString "2021-02-31" ]} |} in
  let s := withRules (newSchema Sample.plainDate) [maxRule] in
  loadModule IsoText.platform true = Ok (extensions IsoText.platform)
  ∧ attach Sample.plainDate "max" [VString "2021-02-31"]
           (newSchema Sample.plainDate) clk = Ok s
  ∧ coerce Sample.plainDate (VString "2021-03-01") clk
    = Ok (mkResult (Some (Sample.date 2021 3 1)) None)
  ∧ ruleOutcome Sample.plainDate "max" (Sample.date 2021 3 1)
                (ro_args maxRule) clk = Some (Throw RangeError)
  ∧ schemaValidate Sample.plainDate s (VString "2021-03-01") clk
    = Throw RangeError.
Proof. intros clk maxRule s. repeat split; reflexivity. Qed.

(** C9.  The startup check is not the only place where an exception leaves
    the module.  The validate of a generated comparison rule calls [parse]
    and the comparator outside any try/catch, where the coerce step guards
    its call of [parse]: on a kind with a comparator, for a limit the rule
    accepts when it is attached and that resolves without complaint, and an
    input that the coerce step turns into an instance of the kind, an
    exception of the comparator is not turned into an error report; the
    validate() call of the schema throws it. *)
Theorem validate_rethrows_comparator_exception (P : Platform) (k : Kind)
    (joi : JoiRoot) (cmp : Val → Val → M Z) (rule : string) (chk : Z → bool)
    (limit input v L : Val) (x : JsError) (clk : Clock) :
  let ext := extensionOf P k joi in
  let s := withRules (newSchema ext)
             [ {| ro_name := rule; ro_args := {[ "limit" := limit ]} |} ] in
  compare (configOf P k) = Some cmp →
  In (rule, chk) CHECKS →
  isString limit || check (configOf P k) limit = true →
  resolveLimit (configOf P k) limit clk = Ok L →
  coerce ext input clk = Ok (mkResult (Some v) None) →
  check (configOf P k) v = true →
  cmp v L clk = Throw x →
  attach ext rule [limit] (newSchema ext) clk = Ok s
  ∧ ruleOutcome ext rule v {[ "limit" := limit ]} clk = Some (Throw x)
  ∧ schemaValidate ext s input clk = Throw x.
Proof.
  intros ext s Hc Hin Hlim HL Hco Hv Hx.
  assert (Hout : ruleOutcome ext rule v {[ "limit" := limit ]} clk
                 = Some (Throw x)).
  { subst ext.
    rewrite (ruleOutcome_comparison P k joi cmp rule chk v _ clk Hc Hin).
    rewrite property_singleton, HL, Hx. reflexivity. }
  split; [|split; [exact Hout|]].
  - subst ext s.
    rewrite (attach_comparison P k joi cmp rule chk limit _ clk Hc Hin), Hlim.
    reflexivity.
  - assert (Hin' : input ≠ VUndefined).
    { intros ->. subst ext. unfold extensionOf in Hco.
      cbn [coerce makeExtension isNullish orb] in Hco.
      injection Hco as <-. destruct k; discriminate Hv. }
    assert (Hva : validate ext v clk = Ok (mkResult (Some v) None)).
    { subst ext. unfold extensionOf. cbn [validate makeExtension].
      rewrite Hv. reflexivity. }
    assert (Hrun : runRules (rules ext) v (sch_rules s) clk = Throw x).
    { subst s. cbn [sch_rules withRules newSchema app].
      rewrite runRules_one. cbn [ro_name ro_args]. rewrite Hout.
      reflexivity. }
    unfold schemaValidate.
    destruct input; try contradiction;
      unfold bind; rewrite Hco; cbn [res_errors res_value default from_option id];
      rewrite Hva; cbn [res_errors res_value default from_option id];
      exact Hrun.
Qed.

(** The schema [duration().min("P1D")] and the input "P300000Y": the limit
    and the input are both durations the library reads, the input is
    coerced to a duration of 300000 years, and comparing it with one day
    relative to today's date leaves the range of representable dates, so
    the validate() call throws a RangeError instead of returning a
    result. *)
Lemma validate_rethrows_comparator_exception_witness :
  let ext := extensionOf IsoText.platform KDuration Sample.joi in
  let clk := Sample.clockOn 2024 3 15 in
  let s := withRules (newSchema ext)
             [ {| ro_name := "min";
                  ro_args := {[ "limit" := VString "P1D" ]} |} ] in
  let long := VTemporal (Duration (Temporal.mkDuration 300000 0 0 0 0 0 0 0 0 0)) in
  let day := VTemporal (Duration (Temporal.mkDuration 0 0 0 1 0 0 0 0 0 0)) in
  resolveLimit (configOf IsoText.platform KDuration) (VString "P1D") clk
    = Ok day
  ∧ coerce ext (VString "P300000Y") clk = Ok (mkResult (Some long) None)
  ∧ attach ext "min" [VString "P1D"] (newSchema ext) clk = Ok s
  ∧ schemaValidate ext s (VString "P2D") clk
    = Ok (mkResult (Some (VTemporal (Duration Sample.twoDays))) None)
  ∧ schemaValidate ext s (VString "P300000Y") clk = Throw RangeError.
Proof.
  intros ext clk s long day.
  assert (HL : resolveLimit (configOf IsoText.platform KDuration)
                 (VString "P1D") clk = Ok day) by (vm_compute; reflexivity).
  assert (Hco : coerce ext (VString "P300000Y") clk
                = Ok (mkResult (Some long) None)) by (vm_compute; reflexivity).
  destruct (validate_rethrows_comparator_exception IsoText.platform KDuration
              Sample.joi _ "min" (fun c => c >=? 0)
              (VString "P1D") (VString "P300000Y") long day RangeError clk
              eq_refl (or_introl eq_refl) eq_refl HL Hco eq_refl eq_refl)
    as (Hat & _ & Hthrow).
  split; [exact HL|]. split; [exact Hco|]. split; [exact Hat|].
  split; [vm_compute; reflexivity|exact Hthrow].
Defined.

(** ** The value is never altered after coercion *)

Lemma comparisonRule_preserves P config p cmp rule chk f v args clk v' :
  rule_validate (comparisonRule P config p cmp rule chk) = Some f →
  f v args clk = Ok (RetValue v') → v' = v.
Proof.
  cbn. intros [= <-]. unfold bind.
  destruct (resolveLimit config (property "limit" args) clk); [|discriminate].
  destruct (cmp v a clk) as [c|]; [|discriminate].
  destruct (chk c); cbv beta iota delta [ret negb]; congruence.
Qed.

Lemma timezoneRule_preserves v args clk v' f :
  rule_validate timezoneRule = Some f →
  f v args clk = Ok (RetValue v') → v' = v.
Proof.
  cbn. intros [= <-]. unfold bind.
  destruct (get_timeZoneId v clk) as [id|]; [|discriminate].
  destruct (notStrictEqual id (property "tz" args)); cbv beta iota delta [ret negb];
    congruence.
Qed.

Lemma signRules_preserve r v args clk v' f :
  r = positiveRule ∨ r = negativeRule ∨ r = nonzeroRule →
  rule_validate r = Some f →
  f v args clk = Ok (RetValue v') → v' = v.
Proof.
  intros [->|[->| ->]]; cbn; intros [= <-]; unfold bind;
    (destruct (get_sign v clk) as [sign|]; [|discriminate]).
  - destruct (lessOrEqual sign 0); cbv beta iota delta [ret negb]; congruence.
  - destruct (greaterOrEqual sign 0); cbv beta iota delta [ret negb]; congruence.
  - destruct (strictEqualNumber sign 0); cbv beta iota delta [ret negb]; congruence.
Qed.

(** Every entry of a kind's rule table is an alias, a generated rule, the
    timezone rule or one of the three sign rules. *)
Lemma table_entries P k joi rule r :
  rules (extensionOf P k joi) !! rule = Some r →
  (∃ target, r = aliasRule target)
  ∨ (∃ cmp nm chk, r = comparisonRule P (configOf P k) (prefixOf P k) cmp nm chk)
  ∨ r = timezoneRule
  ∨ r = positiveRule ∨ r = negativeRule ∨ r = nonzeroRule.
Proof.
  intros H. unfold extensionOf in H.
  destruct (compare (configOf P k)) as [cmp|] eqn:Hc.
  - rewrite (rules_with_compare P _ joi cmp Hc), assign_lookup in H.
    destruct (extraRules (configOf P k) ≫= (.!! rule)) as [x|] eqn:Hx.
    + injection H as ->.
      destruct k; cbn in Hx; try discriminate.
      * apply lookup_singleton_Some in Hx as [_ <-]. tauto.
      * repeat (apply lookup_insert_Some in Hx as [[_ <-]|[_ Hx]]; [tauto|]).
        rewrite lookup_empty in Hx. discriminate.
    + repeat (apply lookup_insert_Some in H as [[_ <-]|[_ H]]; [eauto 8|]).
      rewrite lookup_empty in H. discriminate.
  - rewrite (rules_without_compare P _ joi Hc) in H.
    destruct k; cbn in Hc; discriminate.
Qed.

Lemma table_preserves P k joi rule f v args clk v' :
  rules (extensionOf P k joi) !! rule ≫= rule_validate = Some f →
  f v args clk = Ok (RetValue v') → v' = v.
Proof.
  intros H Hf.
  destruct (rules (extensionOf P k joi) !! rule) as [r|] eqn:Hr;
    [|discriminate]. cbn in H.
  destruct (table_entries P k joi rule r Hr)
    as [[t ->]|[(cmp & nm & chk & ->)|[->|Hs]]].
  - discriminate.
  - eapply comparisonRule_preserves; eassumption.
  - eapply timezoneRule_preserves; eassumption.
  - eapply signRules_preserve; eassumption.
Qed.

(** A run of attached rules that ends without an exception returns the
    value it was given, whether the run passed or reported an error. *)
Lemma runRules_preserves P k joi attached : ∀ v clk r,
  runRules (rules (extensionOf P k joi)) v attached clk = Ok r →
  res_value r = Some v.
Proof.
  induction attached as [|a rest IH]; intros v clk r H.
  - cbn in H. injection H as <-. reflexivity.
  - rewrite runRules_step in H.
    destruct (rules (extensionOf P k joi) !! ro_name a ≫= rule_validate)
      as [f|] eqn:Hf; [|apply (IH _ _ _ H)].
    unfold bind in H.
    destruct (f v (ro_args a) clk) as [[v'|e]|] eqn:Hout; [| |discriminate].
    + rewrite (table_preserves P k joi _ f v _ clk v' Hf Hout) in H.
      apply (IH _ _ _ H).
    + cbn in H. injection H as <-. reflexivity.
Qed.

(** C10.  Every rule validator of every kind (generated comparison rule,
    timezone rule, sign rule) returns, when it succeeds, the very value it
    was given; the validate step returns its input, alone or beside the base
    error; the coerce step returns a value other than its input only from
    its parse branch; and validating an instance of the kind against any
    schema of that kind, whenever it returns, returns that instance. *)
Theorem value_preserved (P : Platform) (k : Kind) (joi : JoiRoot) :
  let ext := extensionOf P k joi in
  let config := configOf P k in
  let baseError :=
    helpers_error (("temporal." +:+ name config) +:+ ".base") ∅ in
  (∀ rule v args clk v',
     ruleOutcome ext rule v args clk = Some (Ok (RetValue v')) → v' = v)
  ∧ (∀ v clk,
     check config v = false →
     validate ext v clk = Ok (mkResult (Some v) (Some baseError)))
  ∧ (∀ v clk,
     check config v = true →
     validate ext v clk = Ok (mkResult (Some v) None))
  ∧ (∀ v clk r v',
     coerce ext v clk = Ok r → res_value r = Some v' → v' ≠ v →
     ∃ text, v = VString text ∧ check config v = false
             ∧ parse config text clk = Ok v')
  ∧ (∀ s v clk r,
     check config v = true →
     schemaValidate ext s v clk = Ok r → res_value r = Some v).
Proof.
  intros ext config baseError. split; [|split; [|split; [|split]]].
  - intros rule v args clk v' H. unfold ruleOutcome in H.
    destruct (rules ext !! rule ≫= rule_validate) as [f|] eqn:Hf;
      [|discriminate].
    cbn in H. injection H as H.
    apply (table_preserves P k joi rule f v args clk v' Hf H).
  - intros v clk Hv. subst ext. unfold extensionOf. cbn [validate makeExtension].
    fold config. rewrite Hv. reflexivity.
  - intros v clk Hv. subst ext. unfold extensionOf. cbn [validate makeExtension].
    fold config. rewrite Hv. reflexivity.
  - intros v clk r v' Hco Hval Hne. subst ext. unfold extensionOf in Hco.
    fold config in Hco.
    destruct (isNullish v || check config v) eqn:Hpass.
    + rewrite (coerce_passthrough P config joi v clk Hpass) in Hco.
      injection Hco as <-. cbn in Hval. congruence.
    + destruct (isString v) eqn:Hs.
      * destruct v as [| | | |text| |]; try discriminate Hs.
        assert (Hc : check config (VString text) = false).
        { apply orb_false_iff in Hpass. apply Hpass. }
        rewrite (coerce_string P config joi text clk Hc) in Hco.
        exists text. split; [reflexivity|]. split; [exact Hc|].
        destruct (parse config text clk) as [parsed|]; injection Hco as <-;
          cbn in Hval; congruence.
      * rewrite (coerce_not_string P config joi v clk Hpass Hs) in Hco.
        injection Hco as <-. discriminate.
  - intros s v clk r Hv H. subst ext.
    rewrite (schemaValidate_instance P k joi s v clk Hv) in H.
    apply (runRules_preserves P k joi _ _ _ _ H).
Qed.

(** On the duration kind: [positive] returns a one-month duration as it
    is, and the validate step returns a string unchanged beside the error. *)
Lemma value_preserved_witness :
  let v := VTemporal (Duration Sample.oneMonth) in
  let clk := Sample.clockOn 2024 3 15 in
  ruleOutcome Sample.duration "positive" v ∅ clk = Some (Ok (RetValue v))
  ∧ validate Sample.duration (VString "P1M") clk
    = Ok (mkResult (Some (VString "P1M"))
            (Some (helpers_error "temporal.duration.base" ∅))).
Proof.
  intros v clk.
  destruct (value_preserved IsoText.platform KDuration Sample.joi)
    as (Hrule & Hbad & _).
  split.
  - assert (H : ∃ v', ruleOutcome Sample.duration "positive" v ∅ clk
                      = Some (Ok (RetValue v'))) by (eexists; reflexivity).
    destruct H as [v' H]. rewrite H.
    rewrite (Hrule "positive" v ∅ clk v' H). reflexivity.
  - apply (Hbad (VString "P1M") clk). reflexivity.
Defined.

(** * Further properties of the code *)

(** ** The descriptors agree with themselves *)

(** X1.  Each descriptor's [check] recognises exactly the library values of its
    own kind, so every library value belongs to exactly one kind; what a
    descriptor's [parse] returns is recognised by the same descriptor's
    [check].  Hence a value returned by coerce is the null or undefined
    input itself or an instance of the kind; coercing it again, at any
    moment, returns it unchanged; and an instance returned by coerce passes
    the validate step. *)
Theorem descriptors_coherent (P : Platform) (k : Kind) (joi : JoiRoot) :
  let config := configOf P k in
  let ext := extensionOf P k joi in
  (∀ o, check config (VTemporal o) = true ↔ kindOf o = k)
  ∧ (∀ o, ∃ k', check (configOf P k') (VTemporal o) = true
              ∧ ∀ k'', check (configOf P k'') (VTemporal o) = true → k'' = k')
  ∧ (∀ v, check config v = true → ∃ o, v = VTemporal o)
  ∧ (∀ text clk v, parse config text clk = Ok v → check config v = true)
  ∧ (∀ v clk v',
     coerce ext v clk = Ok (mkResult (Some v') None) →
     ((isNullish v = true ∧ v' = v) ∨ check config v' = true)
     ∧ (∀ clk', coerce ext v' clk' = Ok (mkResult (Some v') None))
     ∧ (isNullish v = false →
        ∀ clk', validate ext v' clk' = Ok (mkResult (Some v') None))).
Proof.
  intros config ext. split; [|split; [|split; [|split]]].
  - intros o. apply check_kind.
  - intros o. exists (kindOf o). split; [apply check_kind; reflexivity|].
    intros k'' H. apply check_kind in H. congruence.
  - intros v H. destruct (check_instance P k v H) as (o & -> & _). eauto.
  - intros text clk v. apply parse_checked.
  - subst config ext. unfold extensionOf. intros v clk v' Hco.
    set (config := configOf P k) in *.
    assert (Hcases : (isNullish v = true ∧ v' = v) ∨ check config v' = true).
    {
      destruct (isNullish v || check config v) eqn:Hpass.
      - rewrite (coerce_passthrough P config joi v clk Hpass) in Hco.
        injection Hco as <-. apply orb_true_iff in Hpass. tauto.
      - destruct (isString v) eqn:Hs.
        + destruct v as [| | | |text| |]; try discriminate Hs.
          assert (Hc : check config (VString text) = false).
          { apply orb_false_iff in Hpass. apply Hpass. }
          rewrite (coerce_string P config joi text clk Hc) in Hco.
          destruct (parse config text clk) as [parsed|] eqn:Hp;
            [|discriminate].
          injection Hco as <-. right. apply (parse_checked P k text clk), Hp.
        + rewrite (coerce_not_string P config joi v clk Hpass Hs) in Hco.
          discriminate. }
    split; [exact Hcases|]. split.
    + intros clk'. apply coerce_passthrough.
      destruct Hcases as [[Hn ->]| ->]; [rewrite Hn; reflexivity|].
      apply orb_true_r.
    + intros Hn clk'. destruct Hcases as [[Hn' _]| Hc]; [congruence|].
      cbn [validate makeExtension]. rewrite Hc. reflexivity.
Qed.

(** A leap day read from text is kept as it is by a second coercion. *)
Lemma descriptors_coherent_witness :
  let clk := Sample.clockOn 2024 3 15 in
  coerce Sample.plainDate (Sample.date 2024 2 29) clk
  = Ok (mkResult (Some (Sample.date 2024 2 29)) None).
Proof.
  intros clk.
  destruct (descriptors_coherent IsoText.platform KPlainDate Sample.joi)
    as (_ & _ & _ & _ & Hco).
  destruct (Hco (VString "2024-02-29") clk (Sample.date 2024 2 29) eq_refl)
    as (_ & Hidem & _).
  apply Hidem.
Defined.

(** ** How the four generated rules relate *)

(** X2.  For one value, one limit and one moment, the four generated rules of a
    kind stand or fall together: if the validate of one throws, the validate
    of each throws the same exception.  When they return, exactly one of min
    and lt accepts, exactly one of max and gt accepts, gt implies min, lt
    implies max, and gt and lt never both accept. *)
Theorem comparison_rules_partition (P : Platform) (k : Kind) (joi : JoiRoot)
    (cmp : Val → Val → M Z) (v : Val) (args : gmap string Val) (clk : Clock) :
  compare (configOf P k) = Some cmp →
  let out rule := ruleOutcome (extensionOf P k joi) rule v args clk in
  (∀ r1 c1 r2 c2 e, In (r1, c1) CHECKS → In (r2, c2) CHECKS →
     out r1 = Some (Throw e) → out r2 = Some (Throw e))
  ∧ (∀ r1 c1 x, In (r1, c1) CHECKS → out r1 = Some (Ok x) →
     (accepts (out "min") v ↔ rejects (out "lt"))
     ∧ (accepts (out "lt") v ↔ rejects (out "min"))
     ∧ (accepts (out "max") v ↔ rejects (out "gt"))
     ∧ (accepts (out "gt") v ↔ rejects (out "max"))
     ∧ (accepts (out "gt") v → accepts (out "min") v)
     ∧ (accepts (out "lt") v → accepts (out "max") v)
     ∧ ¬ (accepts (out "gt") v ∧ accepts (out "lt") v)).
Proof.
  intros Hc out.
  assert (Hout : ∀ rule chk, In (rule, chk) CHECKS →
    out rule =
      Some (match resolveLimit (configOf P k) (property "limit" args) clk with
            | Throw e => Throw e
            | Ok L =>
                match cmp v L clk with
                | Throw e => Throw e
                | Ok c => if chk c then Ok (RetValue v)
                          else Ok (RetError (limitError P k rule L))
                end
            end)).
  { intros rule chk Hin. apply ruleOutcome_comparison; assumption. }
  split.
  - intros r1 c1 r2 c2 e H1 H2. rewrite (Hout r1 c1 H1), (Hout r2 c2 H2).
    destruct (resolveLimit _ _ clk) as [L|]; [|tauto].
    destruct (cmp v L clk) as [c|]; [|tauto].
    destruct (c1 c); discriminate.
  - intros r1 c1 x H1 Hx. rewrite (Hout r1 c1 H1) in Hx.
    destruct (resolveLimit (configOf P k) (property "limit" args) clk)
      as [L|] eqn:HL; [|discriminate].
    destruct (cmp v L clk) as [c|] eqn:Hcmp; [|discriminate].
    assert (Hrule : ∀ rule chk, In (rule, chk) CHECKS →
              (accepts (out rule) v ↔ chk c = true)
              ∧ (rejects (out rule) ↔ chk c = false)).
    { intros rule chk Hin. eapply accepts_iff. rewrite (Hout rule chk Hin).
      destruct (chk c); reflexivity. }
    destruct (Hrule "min" (fun c => c >=? 0)) as [A1 R1]; [cbn; tauto|].
    destruct (Hrule "max" (fun c => c <=? 0)) as [A2 R2]; [cbn; tauto|].
    destruct (Hrule "gt" (fun c => c >? 0)) as [A3 R3]; [cbn; tauto|].
    destruct (Hrule "lt" (fun c => c <? 0)) as [A4 R4]; [cbn; tauto|].
    cbn beta in *. rewrite A1, A2, A3, A4, R1, R2, R3, R4.
    rewrite Z.geb_leb, Z.gtb_ltb.
    rewrite !Z.leb_le, !Z.ltb_lt, !Z.leb_gt, !Z.ltb_ge. lia.
Qed.

(** A date after the limit: gt accepts it, and so does min. *)
Lemma comparison_rules_partition_witness :
  let v := Sample.date 2021 6 15 in
  let args : gmap string Val := {[ "limit" := VString "2020-01-01" ]} in
  let clk := Sample.clockOn 2024 3 15 in
  accepts (ruleOutcome Sample.plainDate "min" v args clk) v.
Proof.
  intros v args clk.
  destruct (comparison_rules_partition IsoText.platform KPlainDate Sample.joi
              _ v args clk eq_refl) as [_ H].
  destruct (H "gt" (fun c => c >? 0) (RetValue v)
              (or_intror (or_intror (or_introl eq_refl))) eq_refl)
    as (_ & _ & _ & _ & Hgt & _).
  apply Hgt. reflexivity.
Defined.

(** ** The entries of a rule table, by name *)

Lemma table_entry_cases P k joi rule r :
  rules (extensionOf P k joi) !! rule = Some r →
  (∃ cmp chk, compare (configOf P k) = Some cmp ∧ In (rule, chk) CHECKS
     ∧ r = comparisonRule P (configOf P k) (prefixOf P k) cmp rule chk)
  ∨ (rule = "gte" ∧ r = aliasRule "min")
  ∨ (rule = "lte" ∧ r = aliasRule "max")
  ∨ (k = KZonedDateTime ∧ rule = "timezone" ∧ r = timezoneRule)
  ∨ (k = KDuration
     ∧ ((rule = "positive" ∧ r = positiveRule)
        ∨ (rule = "negative" ∧ r = negativeRule)
        ∨ (rule = "nonzero" ∧ r = nonzeroRule))).
Proof.
  intros H. unfold extensionOf in H.
  destruct (compare (configOf P k)) as [cmp|] eqn:Hc.
  - rewrite (rules_with_compare P _ joi cmp Hc), assign_lookup in H.
    destruct (extraRules (configOf P k) ≫= (.!! rule)) as [x|] eqn:Hx.
    + injection H as ->.
      destruct k; cbn in Hx; try discriminate.
      * apply lookup_singleton_Some in Hx as [<- <-]. tauto.
      * repeat (apply lookup_insert_Some in Hx as [[<- <-]|[_ Hx]]; [tauto|]).
        rewrite lookup_empty in Hx. discriminate.
    + apply lookup_insert_Some in H as [[<- <-]|[_ H]]; [tauto|].
      apply lookup_insert_Some in H as [[<- <-]|[_ H]]; [tauto|].
      left. exists cmp.
      repeat (apply lookup_insert_Some in H as [[<- <-]|[_ H]];
              [eexists; split; [reflexivity|]; split; [cbn; tauto|reflexivity]|]).
      rewrite lookup_empty in H. discriminate.
  - rewrite (rules_without_compare P _ joi Hc) in H.
    destruct k; cbn in Hc; discriminate.
Qed.

Lemma runRules_cons ext r rest v clk :
  runRules (rules ext) v (r :: rest) clk =
    match ruleOutcome ext (ro_name r) v (ro_args r) clk with
    | None => runRules (rules ext) v rest clk
    | Some (Ok (RetValue v')) => runRules (rules ext) v' rest clk
    | Some (Ok (RetError e)) => Ok (mkResult (Some v) (Some e))
    | Some (Throw e) => Throw e
    end.
Proof.
  unfold ruleOutcome. rewrite runRules_step.
  destruct (rules ext !! ro_name r ≫= rule_validate) as [f|]; [|reflexivity].
  cbn. unfold bind. destruct (f v (ro_args r) clk) as [[v'|e]|e]; reflexivity.
Qed.

(** ** The sign rules of the duration kind *)

Lemma firstSign_range l :
  Temporal.firstSign l = -1 ∨ Temporal.firstSign l = 0
  ∨ Temporal.firstSign l = 1.
Proof.
  induction l as [|x rest IH]; cbn; [tauto|].
  destruct (x =? 0); [exact IH|]. destruct x; cbn; tauto.
Qed.

Lemma firstSign_zero l :
  Temporal.firstSign l = 0 ↔ Forall (λ x, x = 0) l.
Proof.
  induction l as [|x rest IH]; cbn.
  - split; [constructor | reflexivity].
  - destruct (x =? 0) eqn:Hx.
    + apply Z.eqb_eq in Hx. rewrite IH. split.
      * intros H. constructor; assumption.
      * intros H. inversion H; assumption.
    + apply Z.eqb_neq in Hx. split.
      * intros H. destruct x; cbn in H; congruence.
      * intros H. inversion H; contradiction.
Qed.

Lemma sign_rule_outcomes P joi d args clk :
  let v := VTemporal (Duration d) in
  let out rule := ruleOutcome (extensionOf P KDuration joi) rule v args clk in
  out "positive" =
    Some (Ok (if Temporal.DurationSign d <=? 0
              then RetError (helpers_error "temporal.duration.positive" ∅)
              else RetValue v))
  ∧ out "negative" =
    Some (Ok (if Temporal.DurationSign d >=? 0
              then RetError (helpers_error "temporal.duration.negative" ∅)
              else RetValue v))
  ∧ out "nonzero" =
    Some (Ok (if Temporal.DurationSign d =? 0
              then RetError (helpers_error "temporal.duration.nonzero" ∅)
              else RetValue v)).
Proof.
  intros v out. subst v out. cbv beta.
  assert (Hp : rules (extensionOf P KDuration joi) !! "positive"
               = Some positiveRule) by reflexivity.
  assert (Hn : rules (extensionOf P KDuration joi) !! "negative"
               = Some negativeRule) by reflexivity.
  assert (Hz : rules (extensionOf P KDuration joi) !! "nonzero"
               = Some nonzeroRule) by reflexivity.
  unfold ruleOutcome. rewrite Hp, Hn, Hz.
  cbn [mbind option_bind fmap option_fmap option_map rule_validate
       positiveRule negativeRule nonzeroRule].
  unfold bind, get_sign, ret, lessOrEqual, greaterOrEqual, strictEqualNumber.
  destruct (Temporal.DurationSign d <=? 0),
           (Temporal.DurationSign d >=? 0),
           (Temporal.DurationSign d =? 0); repeat split; reflexivity.
Qed.

(** X3.  On a duration, whatever the rule arguments and the moment: positive
    accepts exactly when the sign is above zero, negative exactly when it
    is below, nonzero exactly when it is not zero; so nonzero accepts
    exactly when positive or negative does, positive and negative never both
    accept, and a schema with both attached rejects every duration.  The
    sign is zero exactly when every field of the duration is zero. *)
Theorem sign_rules_compose (P : Platform) (joi : JoiRoot)
    (d : Temporal.DurationRecord) (args : gmap string Val) (clk : Clock) :
  let ext := extensionOf P KDuration joi in
  let v := VTemporal (Duration d) in
  let sign := Temporal.DurationSign d in
  let out rule := ruleOutcome ext rule v args clk in
  (accepts (out "positive") v ↔ sign > 0)
  ∧ (accepts (out "negative") v ↔ sign < 0)
  ∧ (accepts (out "nonzero") v ↔ sign ≠ 0)
  ∧ (rejects (out "positive") ↔ sign <= 0)
  ∧ (rejects (out "negative") ↔ sign >= 0)
  ∧ (rejects (out "nonzero") ↔ sign = 0)
  ∧ (accepts (out "nonzero") v ↔
       accepts (out "positive") v ∨ accepts (out "negative") v)
  ∧ ¬ (accepts (out "positive") v ∧ accepts (out "negative") v)
  ∧ (sign = 0 ↔ Forall (λ x, x = 0) (Temporal.durationFields d))
  ∧ (∃ e,
       schemaValidate ext
         (withRules (newSchema ext)
            [ {| ro_name := "positive"; ro_args := ∅ |};
              {| ro_name := "negative"; ro_args := ∅ |} ]) v clk
       = Ok (mkResult (Some v) (Some e))).
Proof.
  intros ext v sign out.
  destruct (sign_rule_outcomes P joi d args clk) as (Hp & Hn & Hz).
  fold v in Hp, Hn, Hz. fold sign in Hp, Hn, Hz. fold ext in Hp, Hn, Hz.
  subst out. cbn beta.
  assert (Hpos : accepts (ruleOutcome ext "positive" v args clk) v ↔ sign > 0).
  { split.
    - intros H. unfold accepts in H. rewrite Hp in H.
      destruct (Z.leb_spec sign 0); [discriminate | lia].
    - intros H. unfold accepts. rewrite Hp.
      destruct (Z.leb_spec sign 0); [lia | reflexivity]. }
  assert (Hneg : accepts (ruleOutcome ext "negative" v args clk) v ↔ sign < 0).
  { split.
    - intros H. unfold accepts in H. rewrite Hn, Z.geb_leb in H.
      destruct (Z.leb_spec 0 sign); [discriminate | lia].
    - intros H. unfold accepts. rewrite Hn, Z.geb_leb.
      destruct (Z.leb_spec 0 sign); [lia | reflexivity]. }
  assert (Hnz : accepts (ruleOutcome ext "nonzero" v args clk) v ↔ sign ≠ 0).
  { split.
    - intros H. unfold accepts in H. rewrite Hz in H.
      destruct (Z.eqb_spec sign 0); [discriminate | assumption].
    - intros H. unfold accepts. rewrite Hz.
      destruct (Z.eqb_spec sign 0); [contradiction | reflexivity]. }
  assert (Hrp : rejects (ruleOutcome ext "positive" v args clk) ↔ sign <= 0).
  { unfold rejects. rewrite Hp. destruct (Z.leb_spec sign 0); split;
      intros Hr; try lia; eauto; destruct Hr; discriminate. }
  assert (Hrn : rejects (ruleOutcome ext "negative" v args clk) ↔ sign >= 0).
  { unfold rejects. rewrite Hn, Z.geb_leb. destruct (Z.leb_spec 0 sign); split;
      intros Hr; try lia; eauto; destruct Hr; discriminate. }
  assert (Hrz : rejects (ruleOutcome ext "nonzero" v args clk) ↔ sign = 0).
  { unfold rejects. rewrite Hz. destruct (Z.eqb_spec sign 0); split;
      intros Hr; try lia; eauto; destruct Hr; discriminate. }
  split; [exact Hpos|]. split; [exact Hneg|]. split; [exact Hnz|].
  split; [exact Hrp|]. split; [exact Hrn|]. split; [exact Hrz|].
  split; [rewrite Hpos, Hneg, Hnz; lia|].
  split; [rewrite Hpos, Hneg; lia|].
  split; [apply firstSign_zero|].
  rewrite (schemaValidate_instance P KDuration joi _ v clk eq_refl).
  cbn [withRules newSchema sch_rules app].
  destruct (sign_rule_outcomes P joi d ∅ clk) as (Hp0 & Hn0 & _).
  fold v in Hp0, Hn0. fold sign in Hp0, Hn0.
  rewrite runRules_cons. cbn [ro_name ro_args]. rewrite Hp0.
  destruct (Z.leb_spec sign 0); [eexists; reflexivity|].
  rewrite runRules_cons. cbn [ro_name ro_args]. rewrite Hn0, Z.geb_leb.
  destruct (Z.leb_spec 0 sign); [eexists; reflexivity | lia].
Qed.

(** ** The timezone rule *)

(** X4.  On a zoned date-time, the timezone rule accepts exactly when its
    argument is a string equal, character for character, to the value's
    zone identifier; the instant plays no part.  Any other argument (a
    string in another case, a value that is not a string, a missing
    argument) is refused with the code [temporal.zonedDateTime.timezone]
    and the argument itself in the context. *)
Theorem timezone_exact_match (P : Platform) (joi : JoiRoot)
    (z : Temporal.ZonedRecord) (tz : Val) (clk : Clock) :
  let ext := extensionOf P KZonedDateTime joi in
  let v := VTemporal (ZonedDateTime z) in
  let out := ruleOutcome ext "timezone" v {[ "tz" := tz ]} clk in
  (accepts out v ↔ tz = VString (Temporal.timeZoneId z))
  ∧ (tz ≠ VString (Temporal.timeZoneId z) →
     out = Some (Ok (RetError (helpers_error "temporal.zonedDateTime.timezone"
                                 {[ "timezone" := tz ]}))))
  ∧ ruleOutcome ext "timezone" v ∅ clk
    = Some (Ok (RetError (helpers_error "temporal.zonedDateTime.timezone"
                            {[ "timezone" := VUndefined ]})))
  ∧ (∀ z', Temporal.timeZoneId z' = Temporal.timeZoneId z →
     (accepts (ruleOutcome ext "timezone" (VTemporal (ZonedDateTime z'))
                 {[ "tz" := tz ]} clk) (VTemporal (ZonedDateTime z'))
      ↔ accepts out v)).
Proof.
  intros ext v out.
  assert (Hlook : rules ext !! "timezone" = Some timezoneRule) by reflexivity.
  assert (Hout : ∀ zz args,
    ruleOutcome ext "timezone" (VTemporal (ZonedDateTime zz)) args clk =
      Some (Ok (if notStrictEqual (Some (Temporal.timeZoneId zz))
                     (property "tz" args)
                then RetError (helpers_error "temporal.zonedDateTime.timezone"
                                 {[ "timezone" := property "tz" args ]})
                else RetValue (VTemporal (ZonedDateTime zz))))).
  { intros zz args. unfold ruleOutcome. rewrite Hlook.
    cbn [mbind option_bind fmap option_fmap option_map rule_validate
         timezoneRule].
    unfold bind, get_timeZoneId, ret.
    destruct (notStrictEqual _ _); reflexivity. }
  assert (Hneq : ∀ zz t,
    notStrictEqual (Some (Temporal.timeZoneId zz)) t = false
    ↔ t = VString (Temporal.timeZoneId zz)).
  { intros zz t. destruct t as [| | | |s| |]; cbn;
      try (split; [discriminate | congruence]).
    rewrite negb_false_iff, String.eqb_eq. split; congruence. }
  assert (Hacc : ∀ zz,
    accepts (ruleOutcome ext "timezone" (VTemporal (ZonedDateTime zz))
               {[ "tz" := tz ]} clk) (VTemporal (ZonedDateTime zz))
    ↔ tz = VString (Temporal.timeZoneId zz)).
  { intros zz. unfold accepts. rewrite Hout, property_singleton, <- Hneq.
    destruct (notStrictEqual _ tz); split; intros H;
      try reflexivity; discriminate. }
  split; [apply Hacc|]. split; [|split].
  - intros Hne. subst out v. rewrite Hout, property_singleton.
    destruct (notStrictEqual _ tz) eqn:Hn; [reflexivity|].
    apply Hneq in Hn. contradiction.
  - subst v. rewrite Hout. reflexivity.
  - intros z' Hid. subst out v. rewrite !Hacc, Hid. reflexivity.
Qed.

(** ** Where the clock is read *)

Lemma compare_clock_free P k cmp a b t1 t2 :
  k ≠ KDuration →
  compare (configOf P k) = Some cmp →
  cmp a b t1 = cmp a b t2.
Proof.
  intros Hk Hc.
  destruct k; try congruence; cbn in Hc; try discriminate;
    injection Hc as <-; reflexivity.
Qed.

Lemma getters_clock_free v t1 t2 :
  get_timeZoneId v t1 = get_timeZoneId v t2
  ∧ get_sign v t1 = get_sign v t2.
Proof. destruct v as [| | | | |o|]; try destruct o; split; reflexivity. Qed.

Lemma parse_clock_free P k text t1 t2 :
  parse (configOf P k) text t1 = parse (configOf P k) text t2.
Proof. destruct k; reflexivity. Qed.

(** X5.  The module reads the clock in two places only: the resolver behind the
    token "now" and the reference date of the duration comparator.  The
    coerce and validate steps of every kind, every rule that is not a
    generated comparison, and every generated comparison of a kind other
    than durations whose limit is not a resolved "now" give the same result
    at any two moments. *)
Theorem clock_read_only_for_now_and_durations (P : Platform) (k : Kind)
    (joi : JoiRoot) (t1 t2 : Clock) :
  let ext := extensionOf P k joi in
  (∀ v, coerce ext v t1 = coerce ext v t2)
  ∧ (∀ v, validate ext v t1 = validate ext v t2)
  ∧ (∀ rule v args,
     ¬ In rule ["min"; "max"; "gt"; "lt"] →
     ruleOutcome ext rule v args t1 = ruleOutcome ext rule v args t2)
  ∧ (∀ rule v args,
     k ≠ KDuration →
     isNowToken (property "limit" args) = false ∨ now (configOf P k) = None →
     ruleOutcome ext rule v args t1 = ruleOutcome ext rule v args t2)
  ∧ (∀ limit,
     isNowToken limit = false ∨ now (configOf P k) = None →
     resolveLimit (configOf P k) limit t1 = resolveLimit (configOf P k) limit t2).
Proof.
  intros ext.
  assert (Hres : ∀ limit,
     isNowToken limit = false ∨ now (configOf P k) = None →
     resolveLimit (configOf P k) limit t1
     = resolveLimit (configOf P k) limit t2).
  { intros limit Hnow. unfold resolveLimit.
    assert (Hn : (if isNowToken limit then now (configOf P k) else None)
                 = None).
    { destruct Hnow as [-> | ->]; [reflexivity|].
      destruct (isNowToken limit); reflexivity. }
    rewrite Hn. destruct limit; try reflexivity. apply parse_clock_free. }
  assert (Hother : ∀ rule v args,
     ¬ In rule ["min"; "max"; "gt"; "lt"] →
     ruleOutcome ext rule v args t1 = ruleOutcome ext rule v args t2).
  { intros rule v args Hnot. unfold ruleOutcome.
    destruct (rules ext !! rule) as [r|] eqn:Hr; [|reflexivity].
    destruct (table_entry_cases P k joi rule r Hr)
      as [(cmp & chk & _ & Hin & _)|[[_ ->]|[[_ ->]|[(_ & _ & ->)|[_ Hs]]]]].
    - exfalso. apply Hnot. cbn in Hin. cbn.
      destruct Hin as [E|[E|[E|[E|[]]]]]; injection E as <- _; tauto.
    - reflexivity.
    - reflexivity.
    - cbn. unfold bind. rewrite (proj1 (getters_clock_free v t1 t2)).
      destruct (get_timeZoneId v t2) as [id|]; [|reflexivity].
      destruct (notStrictEqual id (property "tz" args)); reflexivity.
    - destruct Hs as [[_ ->]|[[_ ->]|[_ ->]]]; cbn; unfold bind;
        rewrite (proj2 (getters_clock_free v t1 t2));
        (destruct (get_sign v t2) as [sg|]; [|reflexivity]).
      + destruct (lessOrEqual sg 0); reflexivity.
      + destruct (greaterOrEqual sg 0); reflexivity.
      + destruct (strictEqualNumber sg 0); reflexivity. }
  split; [|split; [|split; [|split]]].
  - intros v. subst ext. unfold extensionOf. cbn [coerce makeExtension].
    destruct (isNullish v || check (configOf P k) v); [reflexivity|].
    destruct v; try reflexivity. unfold try_catch, bind.
    rewrite (parse_clock_free P k s t1 t2). reflexivity.
  - intros v. subst ext. unfold extensionOf. cbn [validate makeExtension].
    destruct (negb (check (configOf P k) v)); reflexivity.
  - exact Hother.
  - intros rule v args Hk Hnow.
    destruct (in_dec string_dec rule ["min"; "max"; "gt"; "lt"]) as [Hin|Hnot];
      [|apply Hother, Hnot].
    destruct (compare (configOf P k)) as [cmp|] eqn:Hc.
    + assert (Hchk : ∃ chk, In (rule, chk) CHECKS).
      { cbn in Hin. destruct Hin as [<-|[<-|[<-|[<-|[]]]]];
          eexists; cbn; eauto 6. }
      destruct Hchk as [chk Hchk]. subst ext.
      rewrite !(ruleOutcome_comparison P k joi cmp rule chk v args _ Hc Hchk).
      rewrite (Hres _ Hnow).
      destruct (resolveLimit (configOf P k) (property "limit" args) t2)
        as [L|]; [|reflexivity].
      rewrite (compare_clock_free P k cmp v L t1 t2 Hk Hc). reflexivity.
    + unfold ruleOutcome. subst ext. unfold extensionOf.
      rewrite (rules_without_compare P _ joi Hc).
      destruct k; cbn in Hc; try discriminate. reflexivity.
  - exact Hres.
Qed.

(** A fixed limit on the calendar-date kind: the same outcome on any two
    days. *)
Lemma clock_read_only_for_now_and_durations_witness :
  let v := Sample.date 2021 6 15 in
  let args : gmap string Val := {[ "limit" := VString "2020-01-01" ]} in
  ruleOutcome Sample.plainDate "min" v args (Sample.clockOn 2024 3 15)
  = ruleOutcome Sample.plainDate "min" v args (Sample.clockOn 2030 1 1).
Proof.
  intros v args.
  destruct (clock_read_only_for_now_and_durations IsoText.platform KPlainDate
              Sample.joi (Sample.clockOn 2024 3 15) (Sample.clockOn 2030 1 1))
    as (_ & _ & _ & H & _).
  apply (H "min" v args); [discriminate | left; reflexivity].
Defined.

(** ** The message table *)

Lemma append_inj (p a b : string) : p +:+ a = p +:+ b → a = b.
Proof. induction p as [|c p IH]; cbn; [tauto|]. intros [= H]. apply IH, H. Qed.

Lemma msgs_lookup (cm : option (gmap string string)) rule chk :
  In (rule, chk) CHECKS →
  ∃ m, assign DEFAULT_COMPARE cm !! rule = Some m
       ∧ Some m = match cm ≫= (.!! rule) with
                  | Some x => Some x
                  | None => DEFAULT_COMPARE !! rule
                  end.
Proof.
  intros Hin. rewrite assign_lookup.
  destruct (cm ≫= (.!! rule)) as [x|]; [eauto|].
  cbn in Hin. destruct Hin as [E|[E|[E|[E|[]]]]]; injection E as <- _;
    eexists; split; reflexivity.
Qed.

Lemma messages_with_compare P config joi cmp :
  compare config = Some cmp →
  ∃ m1 m2 m3 m4,
    let p := "temporal." +:+ name config in
    let msgs := assign DEFAULT_COMPARE (compareMessages config) in
    msgs !! "min" = Some m1 ∧ msgs !! "max" = Some m2
    ∧ msgs !! "gt" = Some m3 ∧ msgs !! "lt" = Some m4
    ∧ messages (makeExtension P config joi) =
        assign
          (<[p +:+ ".lt" := m4]> (<[p +:+ ".gt" := m3]>
          (<[p +:+ ".max" := m2]> (<[p +:+ ".min" := m1]>
             {[ p +:+ ".base" := baseMessage config ]}))))
          (extraMessages config).
Proof.
  intros Hc.
  destruct (msgs_lookup (compareMessages config) "min" (fun c => c >=? 0))
    as (m1 & H1 & _); [cbn; tauto|].
  destruct (msgs_lookup (compareMessages config) "max" (fun c => c <=? 0))
    as (m2 & H2 & _); [cbn; tauto|].
  destruct (msgs_lookup (compareMessages config) "gt" (fun c => c >? 0))
    as (m3 & H3 & _); [cbn; tauto|].
  destruct (msgs_lookup (compareMessages config) "lt" (fun c => c <? 0))
    as (m4 & H4 & _); [cbn; tauto|].
  exists m1, m2, m3, m4. cbv zeta. repeat (split; [assumption|]).
  unfold makeExtension. cbn [messages]. rewrite Hc.
  cbn [foldl CHECKS fst snd]. rewrite H1, H2, H3, H4. reflexivity.
Qed.

(** X6.  How a message is resolved, for any descriptor.  The base code
    [temporal.<name>.base] always has a message: the descriptor's extra
    message under that key if there is one, else its base message.  The
    code of a comparison rule has the extra message under that key if there
    is one; else, when the descriptor has a comparator, the descriptor's
    comparison message for the rule if there is one, else the default
    comparison message; without a comparator it has none.  The table holds
    nothing else: every key is an extra message's key, the base code, or
    (with a comparator) the code of one of the four comparison rules. *)
Theorem message_resolution (P : Platform) (config : TypeConfig)
    (joi : JoiRoot) :
  let p := "temporal." +:+ name config in
  let ext := makeExtension P config joi in
  let override key := extraMessages config ≫= (.!! key) in
  messages ext !! (p +:+ ".base") =
    Some (default (baseMessage config) (override (p +:+ ".base")))
  ∧ (∀ rule chk, In (rule, chk) CHECKS →
       messages ext !! (p +:+ "." +:+ rule) =
         match override (p +:+ "." +:+ rule) with
         | Some m => Some m
         | None =>
             match compare config with
             | Some _ =>
                 match compareMessages config ≫= (.!! rule) with
                 | Some m => Some m
                 | None => DEFAULT_COMPARE !! rule
                 end
             | None => None
             end
         end)
  ∧ (∀ key, is_Some (messages ext !! key) →
       is_Some (override key)
       ∨ key = p +:+ ".base"
       ∨ (is_Some (compare config)
          ∧ ∃ rule chk, In (rule, chk) CHECKS ∧ key = p +:+ "." +:+ rule))
  ∧ (override (p +:+ ".gte") = None → messages ext !! (p +:+ ".gte") = None)
  ∧ (override (p +:+ ".lte") = None → messages ext !! (p +:+ ".lte") = None).
Proof.
  intros p ext override.
  assert (Hne : ∀ a b : string, a ≠ b → p +:+ a ≠ p +:+ b).
  { intros a b Hab E. apply Hab, (append_inj _ _ _ E). }
  assert (Hkeys : ∀ key, is_Some (messages ext !! key) →
       is_Some (override key)
       ∨ key = p +:+ ".base"
       ∨ (is_Some (compare config)
          ∧ ∃ rule chk, In (rule, chk) CHECKS ∧ key = p +:+ "." +:+ rule)).
  { destruct (compare config) as [cmp|] eqn:Hc.
    - destruct (messages_with_compare P config joi cmp Hc)
        as (m1 & m2 & m3 & m4 & _ & _ & _ & _ & Hm).
      fold p in Hm. fold ext in Hm.
      intros key [m Hk]. rewrite Hm, assign_lookup in Hk.
      fold (override key) in Hk.
      destruct (override key) as [x|]; [left; eauto|]. right.
      repeat (apply lookup_insert_Some in Hk as [[<- _]|[_ Hk]];
        [right; split; [eauto|]; do 2 eexists; split;
           [|reflexivity]; cbn;
           repeat (first [left; reflexivity | right])|]).
      apply lookup_singleton_Some in Hk as [<- _]. left. reflexivity.
    - assert (Hm : messages ext =
        assign {[ p +:+ ".base" := baseMessage config ]} (extraMessages config)).
      { subst ext. unfold makeExtension. cbn [messages]. rewrite Hc.
        reflexivity. }
      intros key [m Hk]. rewrite Hm, assign_lookup in Hk.
      fold (override key) in Hk.
      destruct (override key) as [x|]; [left; eauto|]. right. left.
      apply lookup_singleton_Some in Hk as [<- _]. reflexivity. }
  assert (Halias : ∀ alias, alias = "gte" ∨ alias = "lte" →
            override (p +:+ "." +:+ alias) = None →
            messages ext !! (p +:+ "." +:+ alias) = None).
  { intros alias Ha Hov.
    destruct (messages ext !! (p +:+ "." +:+ alias)) as [m|] eqn:Hm;
      [|reflexivity].
    exfalso.
    destruct (Hkeys (p +:+ "." +:+ alias)) as [[x Hx]|[E|(_ & rule & chk & Hin & E)]];
      [eauto|congruence| |].
    - apply append_inj in E. destruct Ha as [-> | ->]; discriminate E.
    - apply append_inj in E. cbn in Hin.
      destruct Hin as [Eq|[Eq|[Eq|[Eq|[]]]]]; injection Eq as <- _;
        destruct Ha as [-> | ->]; discriminate E. }
  split; [|split; [|split; [exact Hkeys|split]]].
  - destruct (compare config) as [cmp|] eqn:Hc.
    + destruct (messages_with_compare P config joi cmp Hc)
        as (m1 & m2 & m3 & m4 & _ & _ & _ & _ & Hm).
      fold p in Hm. fold ext in Hm.
      rewrite Hm, assign_lookup. fold (override (p +:+ ".base")).
      destruct (override (p +:+ ".base")); [reflexivity|].
      rewrite !lookup_insert_ne by (apply Hne; discriminate).
      rewrite lookup_singleton_eq. reflexivity.
    + assert (Hm : messages ext =
        assign {[ p +:+ ".base" := baseMessage config ]} (extraMessages config)).
      { subst ext. unfold makeExtension. cbn [messages]. rewrite Hc.
        reflexivity. }
      rewrite Hm, assign_lookup. fold (override (p +:+ ".base")).
      destruct (override (p +:+ ".base")); [reflexivity|].
      rewrite lookup_singleton_eq. reflexivity.
  - destruct (compare config) as [cmp|] eqn:Hc.
    + destruct (messages_with_compare P config joi cmp Hc)
        as (m1 & m2 & m3 & m4 & H1 & H2 & H3 & H4 & Hm).
      fold p in Hm. fold ext in Hm.
      intros rule chk Hin. rewrite Hm, assign_lookup.
      fold (override (p +:+ "." +:+ rule)).
      destruct (override (p +:+ "." +:+ rule)); [reflexivity|].
      rewrite <- assign_lookup.
      cbn in Hin. destruct Hin as [E|[E|[E|[E|[]]]]]; injection E as <- _;
        [ change ("." +:+ "min") with ".min"; rewrite H1
        | change ("." +:+ "max") with ".max"; rewrite H2
        | change ("." +:+ "gt") with ".gt"; rewrite H3
        | change ("." +:+ "lt") with ".lt"; rewrite H4 ];
        rewrite ?lookup_insert_ne by (apply Hne; discriminate);
        apply lookup_insert_eq.
    + assert (Hm : messages ext =
        assign {[ p +:+ ".base" := baseMessage config ]} (extraMessages config)).
      { subst ext. unfold makeExtension. cbn [messages]. rewrite Hc.
        reflexivity. }
      intros rule chk Hin. rewrite Hm, assign_lookup.
      fold (override (p +:+ "." +:+ rule)).
      destruct (override (p +:+ "." +:+ rule)); [reflexivity|].
      apply lookup_singleton_ne. apply Hne.
      cbn in Hin. destruct Hin as [E|[E|[E|[E|[]]]]]; injection E as <- _;
        discriminate.
  - apply (Halias "gte"). left. reflexivity.
  - apply (Halias "lte"). right. reflexivity.
Qed.

(** ** Error codes *)

Lemma rule_error_code P k joi rule f v args clk e :
  rules (extensionOf P k joi) !! rule ≫= rule_validate = Some f →
  f v args clk = Ok (RetError e) →
  code e = prefixOf P k +:+ "." +:+ rule.
Proof.
  intros H Hf.
  destruct (rules (extensionOf P k joi) !! rule) as [r|] eqn:Hr;
    [|discriminate]. cbn in H.
  destruct (table_entry_cases P k joi rule r Hr)
    as [(cmp & chk & Hc & Hin & ->)|[[_ ->]|[[_ ->]|[(-> & -> & ->)|[-> Hs]]]]];
    try discriminate.
  - injection H as <-. unfold bind in Hf.
    destruct (resolveLimit (configOf P k) (property "limit" args) clk)
      as [L|]; [|discriminate].
    destruct (cmp v L clk) as [c|]; [|discriminate].
    destruct (negb (chk c)); [|discriminate].
    injection Hf as <-. reflexivity.
  - injection H as <-. unfold bind in Hf.
    destruct (get_timeZoneId v clk) as [id|]; [|discriminate].
    destruct (notStrictEqual id (property "tz" args)); [|discriminate].
    injection Hf as <-. reflexivity.
  - destruct Hs as [[-> ->]|[[-> ->]|[-> ->]]]; injection H as <-;
      unfold bind in Hf;
      (destruct (get_sign v clk) as [sg|]; [|discriminate]);
      match type of Hf with
      | (if ?b then _ else _) _ = _ => destruct b; [|discriminate]
      end;
      injection Hf as <-; reflexivity.
Qed.

Lemma rule_code_has_message P k joi rule :
  is_Some (rules (extensionOf P k joi) !! rule ≫= rule_validate) →
  is_Some (messages (extensionOf P k joi) !! (prefixOf P k +:+ "." +:+ rule)).
Proof.
  intros [f H].
  destruct (rules (extensionOf P k joi) !! rule) as [r|] eqn:Hr;
    [|discriminate]. cbn in H.
  destruct (table_entry_cases P k joi rule r Hr)
    as [(cmp & chk & Hc & Hin & ->)|[[_ ->]|[[_ ->]|[(-> & -> & ->)|[-> Hs]]]]];
    try discriminate.
  - rewrite (messages_comparison P k joi cmp rule chk Hc Hin).
    destruct (msgs_lookup (compareMessages (configOf P k)) rule chk Hin)
      as (m & -> & _). eauto.
  - eexists. vm_compute. reflexivity.
  - destruct Hs as [[-> ->]|[[-> ->]|[-> ->]]]; eexists; vm_compute;
      reflexivity.
Qed.

Lemma base_code_has_message P k joi :
  is_Some (messages (extensionOf P k joi) !! (prefixOf P k +:+ ".base")).
Proof. destruct k; eexists; vm_compute; reflexivity. Qed.

Lemma coerce_error_code P k joi v clk r e :
  coerce (extensionOf P k joi) v clk = Ok r → res_errors r = Some e →
  code e = prefixOf P k +:+ ".base".
Proof.
  intros H He. unfold extensionOf in H.
  cbn [coerce makeExtension] in H.
  destruct (isNullish v || check (configOf P k) v).
  - injection H as <-. discriminate He.
  - destruct v as [| | | |text| |];
      try (injection H as <-; injection He as <-; reflexivity).
    unfold try_catch, bind in H.
    destruct (parse (configOf P k) text clk) as [parsed|].
    + injection H as <-. discriminate He.
    + injection H as <-. injection He as <-. reflexivity.
Qed.

Lemma validate_error_code P k joi v clk r e :
  validate (extensionOf P k joi) v clk = Ok r → res_errors r = Some e →
  code e = prefixOf P k +:+ ".base".
Proof.
  intros H He. unfold extensionOf in H.
  cbn [validate makeExtension] in H.
  destruct (negb (check (configOf P k) v)); injection H as <-;
    [injection He as <-; reflexivity|discriminate He].
Qed.

(** X7.  Every error the extension raises has a code of its own and a
    message.  On each kind: an error returned by the coerce step or by the
    validate step carries the base code [temporal.<name>.base]; an error
    returned by the validator of the rule registered under a name carries
    the code [temporal.<name>.<that name>]; and the base code and the code
    of every rule that has a validator are keys of the extension's message
    table, so the message of every such error is found there. *)
Theorem error_codes_have_messages (P : Platform) (k : Kind) (joi : JoiRoot) :
  let ext := extensionOf P k joi in
  let p := prefixOf P k in
  (∀ v clk r e,
     coerce ext v clk = Ok r → res_errors r = Some e →
     code e = p +:+ ".base" ∧ is_Some (messages ext !! code e))
  ∧ (∀ v clk r e,
     validate ext v clk = Ok r → res_errors r = Some e →
     code e = p +:+ ".base" ∧ is_Some (messages ext !! code e))
  ∧ (∀ rule f v args clk e,
     rules ext !! rule ≫= rule_validate = Some f →
     f v args clk = Ok (RetError e) →
     code e = p +:+ "." +:+ rule ∧ is_Some (messages ext !! code e))
  ∧ is_Some (messages ext !! (p +:+ ".base"))
  ∧ (∀ rule,
     is_Some (rules ext !! rule ≫= rule_validate) →
     is_Some (messages ext !! (p +:+ "." +:+ rule))).
Proof.
  intros ext p.
  split; [|split; [|split; [|split]]].
  - intros v clk r e H He.
    rewrite (coerce_error_code P k joi v clk r e H He).
    split; [reflexivity|apply base_code_has_message].
  - intros v clk r e H He.
    rewrite (validate_error_code P k joi v clk r e H He).
    split; [reflexivity|apply base_code_has_message].
  - intros rule f v args clk e H Hf.
    rewrite (rule_error_code P k joi rule f v args clk e H Hf).
    split; [reflexivity|]. apply rule_code_has_message.
    fold ext. rewrite H. eauto.
  - apply base_code_has_message.
  - apply rule_code_has_message.
Qed.

Lemma messages_keys ext key :
  is_Some (messages ext !! key) → In key (messageCodes ext).
Proof.
  intros [m H]. unfold messageCodes. apply list_elem_of_In.
  apply list_elem_of_fmap. exists (key, m). split; [reflexivity|].
  apply elem_of_map_to_list, H.
Qed.

Lemma codesScoped_true P joi : codesScoped P joi = true.
Proof. vm_compute. reflexivity. Qed.

Lemma allKinds_complete k : In k allKinds.
Proof. destruct k; cbn; tauto. Qed.

(** X8.  Message codes are scoped by kind.  Every key of a kind's message
    table starts with [temporal.<type>.], where [<type>] is the type name
    of that kind's extension, and no key occurs in the tables of two
    different kinds: merging the eight tables never overrides a message. *)
Theorem message_codes_scoped (P : Platform) (joi : JoiRoot) (k : Kind)
    (key : string) :
  is_Some (messages (extensionOf P k joi) !! key) →
  String.prefix ("temporal." +:+ type (extensionOf P k joi) +:+ ".") key
    = true
  ∧ ∀ k', is_Some (messages (extensionOf P k' joi) !! key) → k' = k.
Proof.
  intros H. apply messages_keys in H.
  pose proof (codesScoped_true P joi) as Hall. unfold codesScoped in Hall.
  rewrite forallb_forall in Hall.
  specialize (Hall k (allKinds_complete k)).
  rewrite forallb_forall in Hall. specialize (Hall key H).
  apply andb_prop in Hall as [Hpre Hothers].
  split; [exact Hpre|].
  intros k' H'. apply messages_keys in H'.
  rewrite forallb_forall in Hothers.
  specialize (Hothers k' (allKinds_complete k')).
  apply orb_prop in Hothers as [E|Hno].
  - destruct k', k; (reflexivity || discriminate E).
  - exfalso. apply negb_true_iff in Hno.
    assert (Hyes : existsb (String.eqb key)
                     (messageCodes (extensionOf P k' joi)) = true).
    { apply existsb_exists. exists key. split; [exact H'|].
      apply String.eqb_refl. }
    congruence.
Qed.

Lemma message_codes_scoped_witness :
  is_Some (messages (extensionOf IsoText.platform KDuration Sample.joi)
             !! "temporal.duration.positive")
  ∧ String.prefix
      ("temporal." +:+
       type (extensionOf IsoText.platform KDuration Sample.joi) +:+ ".")
      "temporal.duration.positive" = true
  ∧ ∀ k', is_Some (messages (extensionOf IsoText.platform k' Sample.joi)
                     !! "temporal.duration.positive") → k' = KDuration.
Proof.
  assert (H : is_Some
            (messages (extensionOf IsoText.platform KDuration Sample.joi)
               !! "temporal.duration.positive")).
  { eexists. reflexivity. }
  split; [exact H|].
  exact (message_codes_scoped IsoText.platform Sample.joi KDuration
           "temporal.duration.positive" H).
Defined.

(** ** The test helpers *)

(** X9.  The contract of the test helpers, for any schema, input and
    moment.  An exception of the schema's [validate] leaves both helpers
    unchanged.  When [validate] returns, exactly one of [expectPass] and
    [expectError] without a code returns: with no error, [expectPass]
    returns the result's value and [expectError] throws, whatever the
    code; with an error, [expectPass] throws and [expectError] without a
    code returns that error.  The empty string as a code is the same as no
    code.  With a non-empty code [expectError] returns exactly when the
    first detail of the error has that code as its type, and then it
    returns the error itself; an error without details makes it throw a
    type error. *)
Theorem helpers_contract (schema : Helpers.JoiSchema) (input : Val)
    (clk : Clock) :
  let run := Helpers.validate schema input clk in
  let passed := Helpers.expectPass schema input clk in
  let failed code := Helpers.expectError schema input code clk in
  (∀ x, run = Throw x → passed = Throw x ∧ ∀ code, failed code = Throw x)
  ∧ (∀ r, run = Ok r → Helpers.error r = None →
       passed = Ok (Helpers.value r)
       ∧ ∀ code, failed code
                 = Throw (Error "Expected validation to fail but it passed"))
  ∧ (∀ r e, run = Ok r → Helpers.error r = Some e →
       passed = Throw (Error ("Expected validation to pass but got: "
                              +:+ Helpers.message e))
       ∧ failed None = Ok e
       ∧ failed (Some "") = Ok e
       ∧ (∀ c e', failed (Some c) = Ok e' → e' = e)
       ∧ (∀ c, c ≠ "" →
            (failed (Some c) = Ok e
             ↔ ∃ d rest, Helpers.details e = d :: rest
                         ∧ Helpers.detail_type d = c)
            ∧ (Helpers.details e = [] → failed (Some c) = Throw TypeError))).
Proof.
  intros run passed failed.
  subst run passed failed.
  unfold Helpers.validate, Helpers.expectPass, Helpers.expectError, bind.
  split; [|split].
  - intros x ->. split; [reflexivity|]. intros code. reflexivity.
  - intros r -> ->. split; [reflexivity|]. intros code. reflexivity.
  - intros r e -> ->. cbn [Helpers.truthyCode String.eqb].
    split; [reflexivity|]. split; [reflexivity|]. split; [reflexivity|].
    split.
    + intros c e' H. unfold Helpers.truthyCode in H.
      destruct (String.eqb c ""); [injection H as <-; reflexivity|].
      destruct (Helpers.details e) as [|d rest]; [discriminate|].
      destruct (negb (String.eqb (Helpers.detail_type d) c));
        [discriminate|injection H as <-; reflexivity].
    + intros c Hc. apply String.eqb_neq in Hc.
      unfold Helpers.truthyCode. rewrite Hc.
      destruct (Helpers.details e) as [|d rest].
      * split; [|reflexivity]. split; [discriminate|].
        intros (d & rest & H & _). discriminate H.
      * split; [|discriminate].
        destruct (String.eqb (Helpers.detail_type d) c) eqn:E; cbn [negb].
        -- apply String.eqb_eq in E. split; [eauto|reflexivity].
        -- apply String.eqb_neq in E. split; [discriminate|].
           intros (d' & rest' & [= <- _] & H). contradiction.
Qed.

(** The helpers on a compiled schema of the date extension: the overflow
    date meets the expectation of the base code and of no other code, and
    a valid date meets [expectPass]. *)
Example helpers_on_sample :
  let schema := asJoiSchema Sample.plainDate (newSchema Sample.plainDate) in
  let clk := Sample.clockOn 2024 3 15 in
  (∃ e, Helpers.expectError schema (VString "2021-02-31")
          (Some "temporal.plainDate.base") clk = Ok e)
  ∧ (∃ m, Helpers.expectError schema (VString "2021-02-31")
            (Some "temporal.plainDate.min") clk = Throw (Error m))
  ∧ (∃ m, Helpers.expectPass schema (VString "2021-02-31") clk
          = Throw (Error m))
  ∧ Helpers.expectPass schema (VString "2024-02-29") clk
    = Ok (Sample.date 2024 2 29).
Proof.
  cbv zeta.
  split; [eexists; vm_compute; reflexivity|].
  split; [eexists; vm_compute; reflexivity|].
  split; [eexists; vm_compute; reflexivity|].
  vm_compute. reflexivity.
Qed.

(** ** The attached rules as a conjunction *)

Section Conjunction.

Variables (P : Platform) (k : Kind) (joi : JoiRoot) (v : Val) (clk : Clock).

Local Abbreviation ext := (extensionOf P k joi).
Local Abbreviation out :=
  (fun ro : RuleOptions => ruleOutcome ext (ro_name ro) v (ro_args ro) clk).
Local Abbreviation passes :=
  (fun ro : RuleOptions => out ro = None ∨ accepts (out ro) v).

Lemma outcome_cases ro :
  passes ro ∨ (∃ e, out ro = Some (Ok (RetError e)))
  ∨ (∃ x, out ro = Some (Throw x)).
Proof.
  destruct (out ro) as [[[v'|e]|x]|] eqn:Ho; eauto.
  left. right. unfold accepts. rewrite Ho. do 3 f_equal.
  unfold ruleOutcome in Ho.
  destruct (rules ext !! ro_name ro ≫= rule_validate) as [f|] eqn:Hf;
    [|discriminate].
  cbn in Ho. injection Ho as Ho.
  apply (table_preserves P k joi _ f v _ clk v' Hf Ho).
Qed.

Lemma runRules_passes pre rest :
  Forall passes pre →
  runRules (rules ext) v (pre ++ rest) clk = runRules (rules ext) v rest clk.
Proof.
  induction 1 as [|ro pre Hro _ IH]; [reflexivity|].
  cbn [app]. rewrite runRules_cons.
  destruct Hro as [-> | ->]; exact IH.
Qed.

Lemma runRules_cases attached :
  match runRules (rules ext) v attached clk with
  | Ok r =>
      res_value r = Some v
      ∧ match res_errors r with
        | None => Forall passes attached
        | Some e =>
            ∃ pre ro post, attached = (pre ++ ro :: post)%list
              ∧ Forall passes pre ∧ out ro = Some (Ok (RetError e))
        end
  | Throw x =>
      ∃ pre ro post, attached = (pre ++ ro :: post)%list
        ∧ Forall passes pre ∧ out ro = Some (Throw x)
  end.
Proof.
  induction attached as [|ro rest IH].
  - cbn. split; [reflexivity|constructor].
  - rewrite runRules_cons.
    destruct (outcome_cases ro) as [Hp|[[e He]|[x Hx]]].
    + assert (Hsame : match out ro with
                      | None => runRules (rules ext) v rest clk
                      | Some (Ok (RetValue v')) =>
                          runRules (rules ext) v' rest clk
                      | Some (Ok (RetError e)) =>
                          Ok (mkResult (Some v) (Some e))
                      | Some (Throw e) => Throw e
                      end = runRules (rules ext) v rest clk).
      { destruct Hp as [-> | ->]; reflexivity. }
      rewrite Hsame.
      destruct (runRules (rules ext) v rest clk) as [r|x].
      * destruct IH as [Hv IH]. split; [exact Hv|].
        destruct (res_errors r) as [e|].
        -- destruct IH as (pre & ro' & post & -> & Hpre & Ho).
           exists (ro :: pre), ro', post.
           split; [reflexivity|]. split; [constructor; assumption|exact Ho].
        -- constructor; assumption.
      * destruct IH as (pre & ro' & post & -> & Hpre & Ho).
        exists (ro :: pre), ro', post.
        split; [reflexivity|]. split; [constructor; assumption|exact Ho].
    + rewrite He. cbn. split; [reflexivity|].
      exists [], ro, rest. split; [reflexivity|]. split; [constructor|exact He].
    + rewrite Hx.
      exists [], ro, rest. split; [reflexivity|]. split; [constructor|exact Hx].
Qed.

End Conjunction.

(** X10.  The rules of a schema act as a conjunction on an instance of
    the kind.  Take a schema made of rules of the extension that holds at
    most one rule of each name (the host keeps one rule per name: a rule
    attached again replaces the earlier one).  Because every validator
    hands back the value it was given, each attached rule is run on the
    input itself, so: validation accepts the input exactly when every
    attached rule accepts it (a rule without a validator counts as
    accepting); it reports an error exactly when some attached rule returns
    that error and every rule before it accepts; it throws exactly when
    some attached rule throws and every rule before it accepts.  Hence, for
    two such schemas that hold the same rules, attached in whatever order,
    acceptance is the same. *)
Theorem rules_conjunction (P : Platform) (k : Kind) (joi : JoiRoot)
    (s : Schema) (v : Val) (clk : Clock) :
  check (configOf P k) v = true →
  NoDup (map ro_name (sch_rules s)) →
  let ext := extensionOf P k joi in
  let out ro := ruleOutcome ext (ro_name ro) v (ro_args ro) clk in
  let passes ro := out ro = None ∨ accepts (out ro) v in
  let accepted s := schemaValidate ext s v clk = Ok (mkResult (Some v) None) in
  (accepted s ↔ Forall passes (sch_rules s))
  ∧ (∀ e, schemaValidate ext s v clk = Ok (mkResult (Some v) (Some e)) ↔
       ∃ pre ro post, sch_rules s = (pre ++ ro :: post)%list
         ∧ Forall passes pre ∧ out ro = Some (Ok (RetError e)))
  ∧ (∀ x, schemaValidate ext s v clk = Throw x ↔
       ∃ pre ro post, sch_rules s = (pre ++ ro :: post)%list
         ∧ Forall passes pre ∧ out ro = Some (Throw x))
  ∧ (∀ s', NoDup (map ro_name (sch_rules s')) →
       (∀ ro, In ro (sch_rules s) ↔ In ro (sch_rules s')) →
       (accepted s ↔ accepted s')).
Proof.
  intros Hv _ ext out passes accepted. subst ext.
  assert (Hrun : ∀ s0, schemaValidate (extensionOf P k joi) s0 v clk =
            runRules (rules (extensionOf P k joi)) v (sch_rules s0) clk).
  { intros s0. apply schemaValidate_instance, Hv. }
  assert (Hacc : ∀ s0, accepted s0 ↔ Forall passes (sch_rules s0)).
  { intros s0. subst accepted. cbn beta. rewrite Hrun. split.
    - intros H. pose proof (runRules_cases P k joi v clk (sch_rules s0)) as Hc.
      rewrite H in Hc. cbn in Hc. apply Hc.
    - intros H.
      rewrite <- (app_nil_r (sch_rules s0)).
      rewrite (runRules_passes P k joi v clk _ [] H). reflexivity. }
  split; [apply Hacc|]. split; [|split].
  - intros e. rewrite Hrun. split.
    + intros H. pose proof (runRules_cases P k joi v clk (sch_rules s)) as Hc.
      rewrite H in Hc. cbn in Hc. apply Hc.
    + intros (pre & ro & post & -> & Hpre & Ho).
      rewrite (runRules_passes P k joi v clk _ _ Hpre), runRules_cons.
      fold (out ro). rewrite Ho. reflexivity.
  - intros x. rewrite Hrun. split.
    + intros H. pose proof (runRules_cases P k joi v clk (sch_rules s)) as Hc.
      rewrite H in Hc. exact Hc.
    + intros (pre & ro & post & -> & Hpre & Ho).
      rewrite (runRules_passes P k joi v clk _ _ Hpre), runRules_cons.
      fold (out ro). rewrite Ho. reflexivity.
  - intros s' _ Hsame. rewrite !Hacc, !List.Forall_forall.
    split; intros H ro Hin; apply H, Hsame, Hin.
Qed.

(** The range 2024-01-01 .. 2024-12-31 on dates, attached as min then max
    and as max then min: both schemas hold one rule of each name, and both
    accept 15 March 2024. *)
Lemma rules_conjunction_witness :
  let ext := extensionOf IsoText.platform KPlainDate Sample.joi in
  let v := Sample.date 2024 3 15 in
  let clk := Sample.clockOn 2024 3 15 in
  let lower := {| ro_name := "min";
                  ro_args := {[ "limit" := VString "2024-01-01" ]} |} in
  let upper := {| ro_name := "max";
                  ro_args := {[ "limit" := VString "2024-12-31" ]} |} in
  let minMax := withRules (newSchema ext) [lower; upper] in
  let maxMin := withRules (newSchema ext) [upper; lower] in
  check (configOf IsoText.platform KPlainDate) v = true
  ∧ NoDup (map ro_name (sch_rules minMax))
  ∧ NoDup (map ro_name (sch_rules maxMin))
  ∧ attach ext "max" [VString "2024-12-31"]
      (Sample.schemaWith ext "min" [VString "2024-01-01"] clk) clk = Ok minMax
  ∧ attach ext "min" [VString "2024-01-01"]
      (Sample.schemaWith ext "max" [VString "2024-12-31"] clk) clk = Ok maxMin
  ∧ schemaValidate ext minMax v clk = Ok (mkResult (Some v) None)
  ∧ schemaValidate ext maxMin v clk = Ok (mkResult (Some v) None).
Proof.
  intros ext v clk lower upper minMax maxMin.
  assert (Hd1 : NoDup (map ro_name (sch_rules minMax))).
  { apply (bool_decide_unpack _). vm_compute. exact I. }
  assert (Hd2 : NoDup (map ro_name (sch_rules maxMin))).
  { apply (bool_decide_unpack _). vm_compute. exact I. }
  assert (H1 : schemaValidate ext minMax v clk = Ok (mkResult (Some v) None)).
  { vm_compute. reflexivity. }
  split; [reflexivity|]. split; [exact Hd1|]. split; [exact Hd2|].
  split; [vm_compute; reflexivity|]. split; [vm_compute; reflexivity|].
  split; [exact H1|].
  apply (rules_conjunction IsoText.platform KPlainDate Sample.joi
           minMax v clk eq_refl Hd1).
  - exact Hd2.
  - cbn. intros ro. tauto.
  - exact H1.
Defined.

(** ** The methods of the rules *)

(** X11.  The rule table of every kind is coherent, whatever the host does
    with it.  Each rule registered under a name is of one of two shapes.
    Either its method hands the receiver's [$_addRule] one rule, whatever
    the receiver: that rule bears the very name under which the validator
    is registered, the rule has a validator, the arguments object holds
    nothing, or the first argument of the call under one key; every
    argument the rule declares is a key of that object and is asserted to
    be a string or an instance of the kind; and the validator reads the
    arguments object through the stored keys only.  Or the name is gte or
    lte: the rule has no validator and declares no argument, its method
    calls the receiver's min or max with the first argument alone, and
    that target is registered in the same table, with a validator, as a
    rule of the first shape with the argument under the key limit. *)
Theorem rule_methods_coherent (P : Platform) (k : Kind) (joi : JoiRoot)
    (nm : string) (r : Rule) (actuals : list Val) :
  rules (extensionOf P k joi) !! nm = Some r →
  let ext := extensionOf P k joi in
  let head := argument 0 actuals in
  (∃ ro,
     (∀ this, rule_method r this actuals = addRule this ro)
     ∧ ro_name ro = nm
     ∧ is_Some (rule_validate r)
     ∧ (ro_args ro = ∅ ∨ ∃ key, ro_args ro = {[ key := head ]})
     ∧ (∀ spec, In spec (rule_args r) →
          ro_args ro !! arg_name spec = Some head
          ∧ ∀ v, arg_assert spec v = isString v || check (configOf P k) v)
     ∧ (∀ f v clk args args',
          rule_validate r = Some f →
          (∀ key, is_Some (ro_args ro !! key) → args !! key = args' !! key) →
          f v args clk = f v args' clk))
  ∨ (∃ target,
       ((nm = "gte" ∧ target = "min") ∨ (nm = "lte" ∧ target = "max"))
       ∧ (∀ this, rule_method r this actuals = callMethod this target [head])
       ∧ rule_validate r = None
       ∧ rule_args r = []
       ∧ ∃ rt, rules ext !! target = Some rt
            ∧ is_Some (rule_validate rt)
            ∧ ∀ this, rule_method rt this [head]
                      = addRule this {| ro_name := target;
                                        ro_args := {[ "limit" := head ]} |}).
Proof.
  intros Hr ext head. subst ext.
  assert (Halias : ∀ target chk,
            (nm = "gte" ∧ target = "min") ∨ (nm = "lte" ∧ target = "max") →
            In (target, chk) CHECKS →
            r = aliasRule target →
            ∃ rt, rules (extensionOf P k joi) !! target = Some rt
              ∧ is_Some (rule_validate rt)
              ∧ ∀ this, rule_method rt this [head]
                        = addRule this {| ro_name := target;
                                          ro_args := {[ "limit" := head ]} |}).
  { intros target chk Hnm Hin ->.
    destruct (compare (configOf P k)) as [cmp|] eqn:Hc.
    - exists (comparisonRule P (configOf P k) (prefixOf P k) cmp target chk).
      split; [apply (lookup_comparison_kind P k joi cmp target chk Hc Hin)|].
      split; [eexists; reflexivity|]. intros this. reflexivity.
    - exfalso. unfold extensionOf in Hr.
      rewrite (rules_without_compare P _ joi Hc) in Hr.
      destruct k; try discriminate Hc.
      destruct Hnm as [[-> _]|[-> _]]; vm_compute in Hr; discriminate Hr. }
  destruct (table_entry_cases P k joi nm r Hr)
    as [(cmp & chk & Hc & Hin & ->)|[[-> ->]|[[-> ->]|[(-> & -> & ->)|[-> Hs]]]]].
  - left. exists {| ro_name := nm; ro_args := {[ "limit" := head ]} |}.
    cbn [ro_name ro_args rule_method rule_validate rule_args comparisonRule].
    split; [intros this; reflexivity|]. split; [reflexivity|].
    split; [eexists; reflexivity|]. split; [right; eauto|]. split.
    + intros spec [<-|[]]. cbn [arg_name arg_assert].
      split; [apply lookup_singleton_eq|]. intros v. reflexivity.
    + intros f v clk args args' [= <-] Hsame.
      assert (Hlim : property "limit" args = property "limit" args').
      { unfold property. rewrite (Hsame "limit"); [reflexivity|].
        rewrite lookup_singleton_eq. eauto. }
      cbv zeta. rewrite Hlim. reflexivity.
  - right. exists "min". split; [tauto|].
    split; [intros this; reflexivity|]. split; [reflexivity|].
    split; [reflexivity|].
    apply (Halias "min" (fun c => c >=? 0)); [tauto|cbn; tauto|reflexivity].
  - right. exists "max". split; [tauto|].
    split; [intros this; reflexivity|]. split; [reflexivity|].
    split; [reflexivity|].
    apply (Halias "max" (fun c => c <=? 0)); [tauto|cbn; tauto|reflexivity].
  - left. exists {| ro_name := "timezone"; ro_args := {[ "tz" := head ]} |}.
    cbn [ro_name ro_args rule_method rule_validate rule_args timezoneRule].
    split; [intros this; reflexivity|]. split; [reflexivity|].
    split; [eexists; reflexivity|]. split; [right; eauto|]. split.
    + intros spec [].
    + intros f v clk args args' [= <-] Hsame.
      assert (Htz : property "tz" args = property "tz" args').
      { unfold property. rewrite (Hsame "tz"); [reflexivity|].
        rewrite lookup_singleton_eq. eauto. }
      cbv zeta. rewrite Htz. reflexivity.
  - left. exists {| ro_name := nm; ro_args := ∅ |}.
    destruct Hs as [[-> ->]|[[-> ->]|[-> ->]]];
      cbn [ro_name ro_args rule_method rule_validate rule_args
           positiveRule negativeRule nonzeroRule];
      (split; [intros this; reflexivity|]; split; [reflexivity|];
       split; [eexists; reflexivity|]; split; [left; reflexivity|];
       split; [intros spec []|];
       intros f v clk args args' [= <-] _; reflexivity).
Qed.

(** On dates: [gte] has no validator of its own and calls [min], which
    stores its limit under the key the validator of [min] reads. *)
Lemma rule_methods_coherent_witness :
  let ext := extensionOf IsoText.platform KPlainDate Sample.joi in
  let limit := VString "2024-01-01" in
  rules ext !! "gte" = Some (aliasRule "min")
  ∧ (∀ this, rule_method (aliasRule "min") this [limit]
             = callMethod this "min" [limit])
  ∧ ∃ rt, rules ext !! "min" = Some rt
       ∧ is_Some (rule_validate rt)
       ∧ ∀ this, rule_method rt this [limit]
                 = addRule this {| ro_name := "min";
                                   ro_args := {[ "limit" := limit ]} |}.
Proof.
  intros ext limit.
  assert (Hr : rules ext !! "gte" = Some (aliasRule "min"))
    by (vm_compute; reflexivity).
  split; [exact Hr|].
  destruct (rule_methods_coherent IsoText.platform KPlainDate Sample.joi
              "gte" (aliasRule "min") [limit] Hr)
    as [(ro & _ & _ & [f Hf] & _)|(target & Ht & Hcall & _ & _ & Htarget)].
  - discriminate Hf.
  - assert (E : target = "min").
    { destruct Ht as [[_ E]|[E _]]; [exact E|discriminate E]. }
    subst target. split; [exact Hcall|exact Htarget].
Defined.

(** ** The exported list *)

